(** * nextjs-app-auditor: the audit pipeline, embedded and verified

    A shallow embedding of the audit orchestration code
    (lib/ai/tools/sampling.ts, lib/ai/tools/streaming.ts,
    lib/ai/tools/codegraph.ts, lib/ai/tools/cache.ts, lib/ai/report.ts,
    lib/ai/agents/coordinator.ts, lib/ai/provider.ts) and the properties
    of it that the specification states.

    Conventions.  JavaScript strings and Buffers are byte strings
    ([string]); arrays are lists; [number]s that count things are [nat];
    progress percentages are rationals.  Third-party code (micromatch,
    ts-morph, JSON.parse, regular expressions, the model calls, Prisma) is
    a parameter of the section that uses it, so every theorem holds for
    whatever those libraries compute. *)

From Stdlib Require Import String Ascii Bool Arith ZArith QArith Lia Lqa.
From Stdlib Require Import DecimalString List Permutation Sorted.
From ITree Require Import ITree.
Import ListNotations.

Set Warnings "-abstract-large-number".

Local Open Scope string_scope.
Local Open Scope list_scope.
Local Open Scope nat_scope.

(* ================================================================== *)
(** * JavaScript built-ins used by the pipeline *)
(* ================================================================== *)

Module Js.

(** [String(n)] for a non-negative integer. *)
Definition natToString (n : nat) : string :=
  NilEmpty.string_of_uint (Nat.to_uint n).

(** [s.includes(sub)]. *)
Fixpoint includes (s sub : string) : bool :=
  String.prefix sub s ||
  match s with
  | EmptyString => false
  | String _ s' => includes s' sub
  end.

(** [s.split(sep)] for a one-character separator: never empty. *)
Fixpoint split (sep : ascii) (s : string) : list string :=
  match s with
  | EmptyString => [EmptyString]
  | String c s' =>
      if Ascii.eqb c sep then EmptyString :: split sep s'
      else match split sep s' with
           | [] => [String c EmptyString]
           | hd :: tl => String c hd :: tl
           end
  end.

(** [parts.join(sep)]. *)
Definition join (sep : string) (parts : list string) : string :=
  String.concat sep parts.

(** [s.startsWith(p)] and [s.endsWith(p)]. *)
Definition startsWith (s p : string) : bool := String.prefix p s.

Definition endsWith (s p : string) : bool :=
  (String.length p <=? String.length s) &&
  String.eqb (substring (String.length s - String.length p) (String.length p) s) p.

(** [s.toLowerCase()] and [s.toUpperCase()] on ASCII letters. *)
Definition lowerAscii (c : ascii) : ascii :=
  let n := nat_of_ascii c in
  if (65 <=? n) && (n <=? 90) then ascii_of_nat (n + 32) else c.

Definition upperAscii (c : ascii) : ascii :=
  let n := nat_of_ascii c in
  if (97 <=? n) && (n <=? 122) then ascii_of_nat (n - 32) else c.

Fixpoint mapChars (f : ascii -> ascii) (s : string) : string :=
  match s with
  | EmptyString => EmptyString
  | String c s' => String (f c) (mapChars f s')
  end.

Definition toLowerCase (s : string) : string := mapChars lowerAscii s.

Definition toUpperCase (s : string) : string := mapChars upperAscii s.

(** [s.replace(/\n{3,}/g, '\n\n')]: every maximal run of three or more
    line feeds becomes two.  [run] counts the line feeds just emitted. *)
Definition LF : ascii := ascii_of_nat 10.

Fixpoint collapseFrom (run : nat) (s : string) : string :=
  match s with
  | EmptyString => EmptyString
  | String c s' =>
      if Ascii.eqb c LF then
        if run <? 2 then String c (collapseFrom (S run) s') else collapseFrom run s'
      else String c (collapseFrom 0 s')
  end.

Definition collapseBlankLines (s : string) : string := collapseFrom 0 s.

(** White space as [String.prototype.trim] sees it, on bytes: TAB, LF, VT,
    FF, CR and SPACE. *)
Definition isWhiteSpace (c : ascii) : bool :=
  let n := nat_of_ascii c in ((9 <=? n) && (n <=? 13)) || (n =? 32).

Fixpoint trimStart (s : string) : string :=
  match s with
  | String c s' => if isWhiteSpace c then trimStart s' else s
  | EmptyString => EmptyString
  end.

Fixpoint trimEnd (s : string) : string :=
  match s with
  | EmptyString => EmptyString
  | String c s' =>
      match trimEnd s' with
      | EmptyString => if isWhiteSpace c then EmptyString else String c EmptyString
      | t => String c t
      end
  end.

Definition trim (s : string) : string := trimEnd (trimStart s).

(** Truthiness of an optional string: present and not empty. *)
Definition truthy (s : option string) : option string :=
  match s with
  | Some EmptyString => None
  | other => other
  end.

(** [s.slice(n)] and [s.slice(0, s.length - n)]. *)
Definition dropStart (n : nat) (s : string) : string :=
  substring n (String.length s - n) s.

Definition dropEnd (n : nat) (s : string) : string :=
  substring 0 (String.length s - n) s.

(** [s.indexOf(c)] and [s.lastIndexOf(c)] for a one-character needle;
    [None] stands for -1. *)
Fixpoint indexOf (c : ascii) (s : string) : option nat :=
  match s with
  | EmptyString => None
  | String d s' =>
      if Ascii.eqb c d then Some 0 else option_map S (indexOf c s')
  end.

Fixpoint lastIndexOf (c : ascii) (s : string) : option nat :=
  match s with
  | EmptyString => None
  | String d s' =>
      match lastIndexOf c s' with
      | Some i => Some (S i)
      | None => if Ascii.eqb c d then Some 0 else None
      end
  end.

(** [s.slice(from, to)] for [0 <= from <= to]. *)
Definition slice (from to : nat) (s : string) : string :=
  substring from (to - from) s.

(** The regular-expression literals of the sources that are not plain
    substring tests; [RegExp.prototype.test] on them is a parameter of the
    code that uses them.
    - [EvalCall]: [/\beval\s*\(/]
    - [InlineMapDotAll]: [/map\(\(.*\)\s*=>\s*<\w+/s]
    - [InlineMap]: [/map\(\(.*\)\s*=>\s*<\w+/]
    - [ComponentBinding]: [/=\s*\(?\s*[\w]*\s*=>|function\s*\(/] *)
Inductive RegexLiteral := EvalCall | InlineMapDotAll | InlineMap | ComponentBinding.

(** [arr.findIndex(p)]; [None] stands for -1. *)
Fixpoint findIndex {A : Type} (p : A -> bool) (l : list A) : option nat :=
  match l with
  | [] => None
  | x :: l' => if p x then Some 0 else option_map S (findIndex p l')
  end.

(** [arr.findIndex(p) + 1]. *)
Definition findIndexPlusOne {A : Type} (p : A -> bool) (l : list A) : nat :=
  match findIndex p l with
  | Some i => i + 1
  | None => 0
  end.

(** [arr.sort(cmp)]: the sort is stable (ECMAScript 2019), so for a
    consistent comparator it is the stable insertion sort; [cmp a b <= 0]
    keeps [a] in front of [b]. *)
Fixpoint insertBy {A : Type} (cmp : A -> A -> Z) (x : A) (l : list A) : list A :=
  match l with
  | [] => [x]
  | y :: l' =>
      if (cmp x y <=? 0)%Z then x :: y :: l' else y :: insertBy cmp x l'
  end.

Fixpoint sortBy {A : Type} (cmp : A -> A -> Z) (l : list A) : list A :=
  match l with
  | [] => []
  | x :: l' => insertBy cmp x (sortBy cmp l')
  end.

(** [arr.indexOf(x)] with -1 for a miss, as the comparators of report.ts
    use it. *)
Fixpoint indexOfZ {A : Type} (eqb : A -> A -> bool) (x : A) (l : list A) : Z :=
  match l with
  | [] => (-1)%Z
  | y :: l' =>
      if eqb x y then 0%Z
      else match indexOfZ eqb x l' with
           | Zneg _ => (-1)%Z
           | i => (i + 1)%Z
           end
  end.

Section SortFacts.

Context {A : Type} (cmp : A -> A -> Z).

Lemma insertBy_perm (x : A) (l : list A) : Permutation (insertBy cmp x l) (x :: l).
Proof.
  induction l as [|y l IH]; simpl.
  - apply Permutation_refl.
  - destruct (cmp x y <=? 0)%Z.
    + apply Permutation_refl.
    + eapply perm_trans; [apply perm_skip, IH | apply perm_swap].
Qed.

Lemma sortBy_perm (l : list A) : Permutation (sortBy cmp l) l.
Proof.
  induction l as [|x l IH]; simpl.
  - constructor.
  - eapply perm_trans; [apply insertBy_perm | apply perm_skip, IH].
Qed.

Lemma sortBy_length (l : list A) : length (sortBy cmp l) = length l.
Proof. apply Permutation_length, sortBy_perm. Qed.

Lemma sortBy_In (x : A) (l : list A) : In x (sortBy cmp l) <-> In x l.
Proof.
  split; apply Permutation_in; [| apply Permutation_sym]; apply sortBy_perm.
Qed.

End SortFacts.

(** A comparator that is a difference of keys sorts by the key, and
    stably. *)
Section SortByKey.

Context {A : Type} (cmp : A -> A -> Z) (key : A -> Z).

Hypothesis cmp_key : forall a b, cmp a b = (key a - key b)%Z.

Let keyLe (a b : A) : Prop := (key a <= key b)%Z.

Lemma insertBy_sorted (x : A) (l : list A) :
  StronglySorted keyLe l -> StronglySorted keyLe (insertBy cmp x l).
Proof.
  induction l as [|y l IH]; intros Hs; simpl.
  - repeat constructor.
  - inversion Hs as [|? ? Hl Hy]; subst.
    destruct (cmp x y <=? 0)%Z eqn:E.
    + apply Z.leb_le in E. rewrite cmp_key in E.
      constructor; [exact Hs|]. constructor; [unfold keyLe; lia|].
      rewrite Forall_forall in *. intros z Hz. specialize (Hy z Hz).
      unfold keyLe in *. lia.
    + apply Z.leb_gt in E. rewrite cmp_key in E.
      constructor; [apply IH, Hl|].
      rewrite Forall_forall in *. intros z Hz.
      apply (Permutation_in _ (insertBy_perm cmp x l)) in Hz.
      destruct Hz as [<- | Hz]; [unfold keyLe; lia | apply Hy, Hz].
Qed.

Lemma sortBy_sorted (l : list A) : StronglySorted keyLe (sortBy cmp l).
Proof.
  induction l as [|x l IH]; simpl; [constructor | apply insertBy_sorted, IH].
Qed.



End SortByKey.

(** Two lists sorted strictly by an injective key, with the same elements,
    are the same list. *)
Lemma strictly_sorted_unique {A : Type} (key : A -> Z) (l1 l2 : list A) :
  StronglySorted (fun a b => (key a < key b)%Z) l1 ->
  StronglySorted (fun a b => (key a < key b)%Z) l2 ->
  (forall x, In x l1 <-> In x l2) ->
  l1 = l2.
Proof.
  revert l2. induction l1 as [|a l1 IH]; intros l2 H1 H2 Hin.
  - destruct l2 as [|b l2]; [reflexivity|].
    exfalso. apply (proj2 (Hin b)). left. reflexivity.
  - destruct l2 as [|b l2].
    + exfalso. apply (proj1 (Hin a)). left. reflexivity.
    + inversion H1 as [|? ? Hs1 Ha]; subst.
      inversion H2 as [|? ? Hs2 Hb]; subst.
      rewrite Forall_forall in Ha, Hb.
      assert (Hab : a = b).
      { destruct (proj1 (Hin a) (or_introl eq_refl)) as [E | Ha2]; [congruence|].
        destruct (proj2 (Hin b) (or_introl eq_refl)) as [E | Hb1]; [congruence|].
        specialize (Ha b Hb1). specialize (Hb a Ha2). lia. }
      subst b. f_equal. apply IH; [exact Hs1 | exact Hs2 |].
      intros x. split; intros Hx.
      * destruct (proj1 (Hin x) (or_intror Hx)) as [E | Hx2]; [|exact Hx2].
        subst x. specialize (Ha a Hx). lia.
      * destruct (proj2 (Hin x) (or_intror Hx)) as [E | Hx1]; [|exact Hx1].
        subst x. specialize (Hb a Hx). lia.
Qed.

End Js.

(* ================================================================== *)
(** * lib/ai/tools/heuristics.ts: rule hits *)
(* ================================================================== *)

(** A Buffer: its bytes. *)
Definition Buffer := string.

(** The file records that flow through the pipeline
    ([{ path; content?; isBinary }]). *)
Record RepoFile := mkRepoFile {
  path : string;
  content : option Buffer;
  isBinary : bool
}.

Module Heuristics.

Record RuleHit := mkRuleHit {
  rule : string;
  file : string;
  line : nat;
  message : string;
  evidence : option string
}.

Section WithRegex.

Variable regexTest : Js.RegexLiteral -> string -> bool.

Definition lines (text : string) : list string := Js.split Js.LF text.

(** The hits of one text file, rule by rule in source order. *)
Definition fileHits (f : RepoFile) (text : string) : list RuleHit :=
  (if Js.includes text "dangerouslySetInnerHTML" then
     [ mkRuleHit "react-dangerouslySetInnerHTML" (path f)
         (Js.findIndexPlusOne (fun l => Js.includes l "dangerouslySetInnerHTML") (lines text))
         "Use of dangerouslySetInnerHTML detected. Ensure sanitization."
         (Some "dangerouslySetInnerHTML") ]
   else [])
  ++ (if regexTest Js.EvalCall text then
        [ mkRuleHit "no-eval" (path f)
            (Js.findIndexPlusOne (regexTest Js.EvalCall) (lines text))
            "Use of eval is dangerous and should be removed." None ]
      else [])
  ++ (if existsb (Js.includes (Js.toLowerCase (path f)))
                 [".png"; ".jpg"; ".jpeg"; ".gif"; ".webp"]
         && Js.includes (path f) "/public/" then
        [ mkRuleHit "large-asset-public" (path f) 1
            "Large binary asset under public/. Prefer CDN or next/image with optimization."
            None ]
      else [])
  ++ (if regexTest Js.InlineMapDotAll text && (5000 <? String.length text) then
        [ mkRuleHit "inline-component-in-map" (path f)
            (Js.findIndexPlusOne (regexTest Js.InlineMap) (lines text))
            "Rendering JSX in array.map in a large component. Consider memoization or virtualization."
            None ]
      else [])
  ++ (if Js.startsWith (path f) "app/" && Js.endsWith (path f) "/route.ts"
         && Js.includes text "export async function GET" then
        if negb (Js.includes text "revalidate" || Js.includes text "cache-control") then
          [ mkRuleHit "api-no-cache-control" (path f)
              (Js.findIndexPlusOne (fun l => Js.includes l "export async function GET")
                                   (lines text))
              "API route missing explicit caching. Add Cache-Control or revalidate where appropriate."
              None ]
        else []
      else []).

Definition runHeuristics (files : list RepoFile) : list RuleHit :=
  flat_map
    (fun f =>
       if isBinary f then []
       else match content f with
            | None => []
            | Some buf => fileHits f buf
            end)
    files.

End WithRegex.

End Heuristics.

(* ================================================================== *)
(** * lib/ai/tools/sampling.ts *)
(* ================================================================== *)

Module Sampling.

Import Heuristics.

(** [{ ...file, priority, reason }]. *)
Record FileWithPriority := mkFileWithPriority {
  fileOf :> RepoFile;
  priority : nat;
  reason : string
}.

(** An entry of a quota table: a count or [Infinity]. *)
Inductive Quota := Finite (n : nat) | Infinity.

Definition belowQuota (count : nat) (q : Quota) : bool :=
  match q with
  | Finite n => count <? n
  | Infinity => true
  end.

(** Property lookup in a quota table, [table[key] ?? 0]. *)
Fixpoint lookupQuota (table : list (string * Quota)) (key : string) : Quota :=
  match table with
  | [] => Finite 0
  | (k, q) :: rest => if String.eqb k key then q else lookupQuota rest key
  end.

(** [Math.floor(maxFiles * 0.25)] and its siblings.  For a file count the
    binary64 product is within half a unit in the last place of the exact
    one, so the floor is the integer quotient. *)
Definition typeQuotas (maxFiles : nat) : list (string * Quota) :=
  [ ("api-route", Finite (maxFiles * 25 / 100));
    ("page-component", Finite (maxFiles * 20 / 100));
    ("auth-security", Finite (maxFiles * 15 / 100));
    ("data-access", Finite (maxFiles * 10 / 100));
    ("middleware", Finite 2);
    ("layout", Finite 2);
    ("heuristic-hit", Infinity) ].

(** [file.reason.split(',')[0]]. *)
Definition primaryTypeOf (reason : string) : string :=
  hd EmptyString (Js.split "," reason).

(** An element of [scored]: objects are compared by identity in
    [selected.includes(file)], so each carries the index at which it was
    pushed. *)
Definition Scored : Type := nat * FileWithPriority.

Definition sameObject (a b : Scored) : bool := fst a =? fst b.

Section WithMicromatch.

(** [micromatch.isMatch(path, patterns, { nocase })]. *)
Variable isMatch : string -> list string -> bool -> bool.

(** The eleven scoring rules of the loop body, in source order: whether
    the rule fires, its points, its reason tag. *)
Definition scoringRules (flaggedFiles : list string) (f : RepoFile) (buf : Buffer)
  : list (bool * nat * string) :=
  let len := String.length buf in
  let sizeBonus := Nat.min 5 (len / 10240) in
  [ (existsb (String.eqb (path f)) flaggedFiles, 10, "heuristic-hit");
    (isMatch (path f) ["**/app/**/route.ts"; "**/app/**/route.js"; "**/pages/api/**/*"] false,
     8, "api-route");
    (isMatch (path f) ["**/app/**/page.tsx"; "**/app/**/page.jsx"; "**/pages/**/*.tsx"] false,
     7, "page-component");
    (isMatch (path f) ["**/app/**/layout.tsx"; "**/app/**/layout.jsx"; "**/app/layout.*"] false,
     6, "layout");
    (isMatch (path f) ["**/*auth*"; "**/*login*"; "**/*password*"; "**/*token*"; "**/*session*"] true,
     9, "auth-security");
    (isMatch (path f) ["**/prisma/**/*"; "**/lib/db/**/*"; "**/*database*"; "**/*query*"] true,
     7, "data-access");
    (isMatch (path f) ["**/middleware.ts"; "**/middleware.js"; "**/_middleware.*"] false,
     8, "middleware");
    (isMatch (path f) ["**/next.config.*"; "**/tailwind.config.*"; "**/tsconfig.json"] false,
     5, "config");
    ((10240 <? len) && (0 <? sizeBonus), sizeBonus,
     ("large-file-" ++ Js.natToString (len / 1024) ++ "kb")%string);
    (isMatch (path f) ["**/lib/**/*.ts"; "**/utils/**/*.ts"] false, 4, "lib-util");
    (isMatch (path f) ["**/components/**/*.tsx"; "**/components/**/*.jsx"] false,
     3, "component") ].

Definition fired (rules : list (bool * nat * string)) : list (nat * string) :=
  map (fun r => (snd (fst r), snd r)) (filter (fun r => fst (fst r)) rules).

(** One iteration of the scoring loop: [None] for a file that is skipped
    ([file.isBinary || !file.content]). *)
Definition scoreFile (flaggedFiles : list string) (f : RepoFile)
  : option FileWithPriority :=
  if isBinary f then None
  else match content f with
       | None => None
       | Some buf =>
           let hits := fired (scoringRules flaggedFiles f buf) in
           let reasons := Js.join "," (map snd hits) in
           Some (mkFileWithPriority f
                   (list_sum (map fst hits))
                   (if String.eqb reasons "" then "standard" else reasons))
       end.

Fixpoint scoreAll (flaggedFiles : list string) (files : list RepoFile)
  : list FileWithPriority :=
  match files with
  | [] => []
  | f :: rest =>
      match scoreFile flaggedFiles f with
      | Some e => e :: scoreAll flaggedFiles rest
      | None => scoreAll flaggedFiles rest
      end
  end.

(** [scored] after [scored.sort((a, b) => b.priority - a.priority)]. *)
Definition sortedScored (files : list RepoFile) (heuristics : list RuleHit)
  : list Scored :=
  let scored := scoreAll (map file heuristics) files in
  Js.sortBy (fun a b => Z.of_nat (priority (snd b)) - Z.of_nat (priority (snd a)))%Z
            (combine (seq 0 (length scored)) scored).

(** First pass: fill the quotas of the high-priority types. *)
Fixpoint firstPass (maxFiles : nat) (scored selected : list Scored) : list Scored :=
  match scored with
  | [] => selected
  | f :: rest =>
      if maxFiles <=? length selected then selected
      else
        let primaryType := primaryTypeOf (reason (snd f)) in
        let quota := lookupQuota (typeQuotas maxFiles) primaryType in
        let currentCount :=
          length (filter (fun s => Js.includes (reason (snd s)) primaryType) selected) in
        firstPass maxFiles rest
          (if belowQuota currentCount quota then selected ++ [f] else selected)
  end.

(** Second pass: fill the remaining slots with the highest priorities. *)
Fixpoint secondPass (maxFiles : nat) (scored selected : list Scored) : list Scored :=
  match scored with
  | [] => selected
  | f :: rest =>
      if maxFiles <=? length selected then selected
      else
        secondPass maxFiles rest
          (if existsb (sameObject f) selected then selected else selected ++ [f])
  end.

(** [intelligentSampling(files, heuristics, maxFiles)]; [maxFiles] is a
    number of files. *)
Definition intelligentSampling (files : list RepoFile) (heuristics : list RuleHit)
  (maxFiles : nat) : list FileWithPriority :=
  let scored := sortedScored files heuristics in
  let selected := secondPass maxFiles scored (firstPass maxFiles scored []) in
  map snd (firstn maxFiles selected).

End WithMicromatch.

(** ** A glob matcher to run the sampler on examples

    The patterns of sampling.ts use literal characters, [*] inside a path
    segment and [**] across segments; wild cards do not match a leading
    dot.  The theorems below are about any matcher; this one evaluates
    the examples. *)

Definition startsWithDot (s : string) : bool :=
  match s with
  | String "." _ => true
  | _ => false
  end.

Fixpoint segmentMatch (p : string) : string -> bool :=
  match p with
  | EmptyString => fun s => match s with EmptyString => true | _ => false end
  | String "*" p' =>
      fix star (s : string) : bool :=
        segmentMatch p' s ||
        match s with
        | EmptyString => false
        | String _ s' => star s'
        end
  | String c p' =>
      fun s => match s with
               | String d s' => Ascii.eqb c d && segmentMatch p' s'
               | EmptyString => false
               end
  end.

Fixpoint segmentsMatch (ps : list string) : list string -> bool :=
  match ps with
  | [] => fun ss => match ss with [] => true | _ => false end
  | p :: ps' =>
      if String.eqb p "**" then
        fix star (ss : list string) : bool :=
          segmentsMatch ps' ss ||
          match ss with
          | [] => false
          | s :: ss' => negb (startsWithDot s) && star ss'
          end
      else
        fun ss => match ss with
                  | s :: ss' =>
                      (negb (startsWithDot s) || startsWithDot p) &&
                      segmentMatch p s && segmentsMatch ps' ss'
                  | [] => false
                  end
  end.

Definition globMatch (p : string) (patterns : list string) (nocase : bool) : bool :=
  let fold := fun s => if nocase then Js.toLowerCase s else s in
  existsb (fun pat => segmentsMatch (Js.split "/" (fold pat)) (Js.split "/" (fold p)))
          patterns.


(** ** Facts about the two passes *)



Section SamplerFacts.

Variable isMatch : string -> list string -> bool -> bool.


Lemma secondPass_keeps (m : nat) (scored selected : list Scored) (e : Scored) :
  In e selected -> In e (secondPass m scored selected).
Proof.
  revert selected. induction scored as [|f rest IH]; intros selected He; simpl.
  - exact He.
  - destruct (m <=? length selected); [exact He|].
    apply IH. destruct (existsb _ _); [|apply in_or_app; left]; exact He.
Qed.

Lemma firstPass_length (m : nat) (scored selected : list Scored) :
  length selected <= m -> length (firstPass m scored selected) <= m.
Proof.
  revert selected. induction scored as [|f rest IH]; intros selected Hl; simpl.
  - exact Hl.
  - destruct (m <=? length selected) eqn:Hfull; [exact Hl|].
    apply Nat.leb_gt in Hfull. apply IH.
    destruct (belowQuota _ _); [rewrite length_app; simpl; lia | lia].
Qed.

Lemma secondPass_length (m : nat) (scored selected : list Scored) :
  length selected <= m -> length (secondPass m scored selected) <= m.
Proof.
  revert selected. induction scored as [|f rest IH]; intros selected Hl; simpl.
  - exact Hl.
  - destruct (m <=? length selected) eqn:Hfull; [exact Hl|].
    apply Nat.leb_gt in Hfull. apply IH.
    destruct (existsb _ _); [lia | rewrite length_app; simpl; lia].
Qed.

(** The selection never outgrows the cap, so the final [slice] keeps all
    of it. *)
Lemma selection_within_cap (m : nat) (scored : list Scored) :
  firstn m (secondPass m scored (firstPass m scored [])) =
  secondPass m scored (firstPass m scored []).
Proof.
  apply firstn_all2, secondPass_length, firstPass_length. simpl. lia.
Qed.

Lemma sampling_length (files : list RepoFile) (heuristics : list RuleHit) (m : nat) :
  length (intelligentSampling isMatch files heuristics m) <= m.
Proof.
  unfold intelligentSampling. rewrite length_map, length_firstn. apply Nat.le_min_l.
Qed.


Lemma scoreAll_In (flagged : list string) (files : list RepoFile) (e : FileWithPriority) :
  In e (scoreAll isMatch flagged files) <->
  exists f, In f files /\ scoreFile isMatch flagged f = Some e.
Proof.
  induction files as [|f files IH]; simpl.
  - split; [tauto | intros [f [[] _]]].
  - destruct (scoreFile isMatch flagged f) as [e'|] eqn:Hs; simpl; rewrite IH; split.
    + intros [<- | [g [Hg He]]]; [exists f; auto | exists g; auto].
    + intros [g [[<- | Hg] He]]; [left; congruence | right; exists g; auto].
    + intros [g [Hg He]]. exists g; auto.
    + intros [g [[<- | Hg] He]]; [congruence | exists g; auto].
Qed.

Lemma scoreFile_file (flagged : list string) (f : RepoFile) (e : FileWithPriority) :
  scoreFile isMatch flagged f = Some e -> fileOf e = f.
Proof.
  unfold scoreFile. destruct (isBinary f); [discriminate|].
  destruct (content f); [|discriminate]. intros [= <-]. reflexivity.
Qed.





Lemma sortedScored_length (files : list RepoFile) (heuristics : list RuleHit) :
  length (sortedScored isMatch files heuristics) =
  length (scoreAll isMatch (map file heuristics) files).
Proof.
  unfold sortedScored. cbv zeta.
  rewrite Js.sortBy_length. unfold Scored.
  rewrite length_combine, length_seq. apply Nat.min_id.
Qed.


(** The files the scoring loop does not skip. *)
Definition scorable (f : RepoFile) : bool :=
  negb (isBinary f) && match content f with Some _ => true | None => false end.

Lemma scoreAll_length (flagged : list string) (files : list RepoFile) :
  length (scoreAll isMatch flagged files) = length (filter scorable files).
Proof.
  induction files as [|f files IH]; simpl; [reflexivity|].
  unfold scoreFile, scorable.
  destruct (isBinary f); simpl; [exact IH|].
  destruct (content f); simpl; [f_equal|]; exact IH.
Qed.




End SamplerFacts.

(** ** The claims about the sampler *)

Definition fileA : RepoFile := mkRepoFile "a.ts" (Some "eval(x)") false.
Definition fileB : RepoFile := mkRepoFile "b.ts" (Some "eval(y)") false.
Definition hitA : RuleHit :=
  mkRuleHit "no-eval" "a.ts" 1 "Use of eval is dangerous and should be removed." None.

(** C6.  For every input [(files, heuristics, maxFiles)] the list that
    [intelligentSampling] returns has at most [maxFiles] elements. *)
Theorem sampler_output_within_cap
  (isMatch : string -> list string -> bool -> bool)
  (files : list RepoFile) (heuristics : list RuleHit) (maxFiles : nat) :
  length (intelligentSampling isMatch files heuristics maxFiles) <= maxFiles.
Proof. apply sampling_length. Qed.




End Sampling.

(* ================================================================== *)
(** * lib/ai/agents/types.ts *)
(* ================================================================== *)

Module Types.

Record RepoRef := mkRepoRef {
  owner : string;
  repo : string;
  ref : option string
}.

Inductive IssueType := security | performance | ux | backend | db | lint | general.

Inductive Severity := critical | high | medium | low | info.

Inductive AIProviderName := vercel | openrouter.

Record Codemod := mkCodemod {
  name : string;
  command : string;
  cmDescription : string;
  transform : option string
}.

Record DocRef := mkDocRef {
  docTitle : string;
  url : string
}.

Record Issue := mkIssue {
  id : string;
  type : IssueType;
  severity : Severity;
  title : string;
  description : string;
  file : option string;
  line : option nat;
  codeFrame : option string;
  recommendation : option string;
  codemod : option Codemod;
  docs : option (list DocRef);
  evidence : option (list string)
}.

(** [stats] is a [Record<string, number>]: its entries in insertion
    order. *)
Record ScanResult := mkScanResult {
  repoOf : RepoRef;
  startedAt : string;
  finishedAt : string;
  stats : list (string * nat);
  issues : list Issue;
  embeddings : option nat;
  provider : AIProviderName;
  model : string;
  openrouterProvider : option string;
  markdown : string;
  warnings : option (list string)
}.

Definition issueTypeEqb (a b : IssueType) : bool :=
  match a, b with
  | security, security | performance, performance | ux, ux | backend, backend
  | db, db | lint, lint | general, general => true
  | _, _ => false
  end.


Lemma issueTypeEqb_eq (a b : IssueType) : issueTypeEqb a b = true <-> a = b.
Proof. destruct a, b; simpl; split; congruence. Qed.


(** The string a template literal prints for each enumeration value. *)
Definition issueTypeName (t : IssueType) : string :=
  match t with
  | security => "security" | performance => "performance" | ux => "ux"
  | backend => "backend" | db => "db" | lint => "lint" | general => "general"
  end.

Definition severityName (s : Severity) : string :=
  match s with
  | critical => "critical" | high => "high" | medium => "medium"
  | low => "low" | info => "info"
  end.

Definition providerName (p : AIProviderName) : string :=
  match p with
  | vercel => "vercel" | openrouter => "openrouter"
  end.

End Types.

(* ================================================================== *)
(** * lib/ai/report.ts *)
(* ================================================================== *)

Module Report.

Import Types.

Definition severityRank (s : Severity) : Z :=
  match s with
  | critical => 5 | high => 4 | medium => 3 | low => 2 | info => 1
  end.

Definition formatIssue (issue : Issue) (index : nat) : string :=
  let lines :=
    [ "### " ++ Js.natToString (index + 1) ++ ". " ++ title issue;
      "- **Type:** " ++ issueTypeName (type issue);
      "- **Severity:** " ++ severityName (severity issue) ]%string
    ++ match Js.truthy (file issue) with
       | Some f =>
           let location :=
             match line issue with
             | Some (S n) => (f ++ ":" ++ Js.natToString (S n))%string
             | _ => f
             end in
           [ ("- **Location:** " ++ location)%string ]
       | None => []
       end
    ++ match evidence issue with
       | Some (e :: es) => [ ("- **Evidence:** " ++ Js.join "; " (e :: es))%string ]
       | _ => []
       end
    ++ [ "" ]
    ++ match Js.truthy (Some (description issue)) with
       | Some d => [ Js.trim d; "" ]
       | None => []
       end
    ++ match Js.truthy (recommendation issue) with
       | Some r => [ ("**Recommendation:** " ++ Js.trim r)%string; "" ]
       | None => []
       end
    ++ match docs issue with
       | Some (d :: ds) =>
           [ "**References:**" ]
           ++ map (fun doc => ("- [" ++ docTitle doc ++ "](" ++ url doc ++ ")")%string)
                  (d :: ds)
           ++ [ "" ]
       | _ => []
       end
    ++ match codemod issue with
       | Some cm =>
           [ "**Suggested Codemod:**"; ""; "```bash"; command cm; "```" ]
           ++ match Js.truthy (Some (cmDescription cm)) with
              | Some d => [ ""; Js.trim d ]
              | None => []
              end
           ++ [ "" ]
       | None => []
       end in
  Js.collapseBlankLines (Js.join (String Js.LF "") lines).

(** The fixed order of the report's sections. *)
Definition order : list IssueType :=
  [security; performance; backend; ux; db; lint; general].

(** [grouped]: a [Map] from type to bucket, keys in insertion order. *)
Fixpoint pushToBucket (grouped : list (IssueType * list Issue)) (issue : Issue)
  : list (IssueType * list Issue) :=
  match grouped with
  | [] => [(type issue, [issue])]
  | (t, bucket) :: rest =>
      if issueTypeEqb t (type issue) then (t, bucket ++ [issue]) :: rest
      else (t, bucket) :: pushToBucket rest issue
  end.

Definition groupByType (issues : list Issue) : list (IssueType * list Issue) :=
  fold_left pushToBucket issues [].

Fixpoint getBucket (grouped : list (IssueType * list Issue)) (t : IssueType)
  : list Issue :=
  match grouped with
  | [] => []
  | (t', bucket) :: rest => if issueTypeEqb t' t then bucket else getBucket rest t
  end.

(** [Array.from(grouped.keys()).sort((a, b) => order.indexOf(a) - order.indexOf(b))]. *)
Definition sortedTypes (grouped : list (IssueType * list Issue)) : list IssueType :=
  Js.sortBy (fun a b => Js.indexOfZ issueTypeEqb a order - Js.indexOfZ issueTypeEqb b order)%Z
            (map fst grouped).

(** The sections of the findings part, in the order they are written:
    each type with its bucket after
    [list.sort((a, b) => severityRank(b.severity) - severityRank(a.severity))]. *)
Definition sections (issues : list Issue) : list (IssueType * list Issue) :=
  let grouped := groupByType issues in
  flat_map
    (fun t =>
       match getBucket grouped t with
       | [] => []
       | bucket =>
           [(t, Js.sortBy (fun a b => severityRank (severity b) - severityRank (severity a))%Z
                          bucket)]
       end)
    (sortedTypes grouped).

Fixpoint formatAll (bucket : list Issue) (idx : nat) : list string :=
  match bucket with
  | [] => []
  | issue :: rest => formatIssue issue idx :: "" :: formatAll rest (S idx)
  end.

Definition sectionLines (s : IssueType * list Issue) : list string :=
  [ ("### " ++ Js.toUpperCase (issueTypeName (fst s)) ++ " ("
       ++ Js.natToString (length (snd s)) ++ ")")%string; "" ]
  ++ formatAll (snd s) 0.

Section WithDates.

(** [new Date(iso).toLocaleString()]: depends on the host's locale. *)
Variable toLocaleString : string -> string.

Definition headerLines (result : ScanResult) : list string :=
  [ "# Audit Report: " ++ owner (repoOf result) ++ "/" ++ repo (repoOf result);
    "";
    "- **Reference:** " ++ match ref (repoOf result) with Some r => r | None => "HEAD" end;
    "- **Started:** " ++ toLocaleString (startedAt result);
    "- **Finished:** " ++ toLocaleString (finishedAt result);
    "- **Provider:** " ++ providerName (provider result);
    "- **Model:** " ++ model result
       ++ match Js.truthy (openrouterProvider result) with
          | Some p => " (" ++ p ++ ")"
          | None => ""
          end;
    "";
    "## Repository Stats";
    "";
    "| Metric | Value |";
    "| --- | ---: |" ]%string
  ++ map (fun kv => ("| " ++ fst kv ++ " | " ++ Js.natToString (snd kv) ++ " |")%string)
         (stats result)
  ++ [ "" ]
  ++ match warnings result with
     | Some (w :: ws) =>
         [ "> **Warnings:**" ]
         ++ map (fun warn => ("> - " ++ warn)%string) (w :: ws)
         ++ [ "" ]
     | _ => []
     end.

Definition buildMarkdownReport (result : ScanResult) : string :=
  match issues result with
  | [] =>
      Js.join (String Js.LF "")
        (headerLines result
         ++ [ "## Findings"; "";
              "No issues were detected in the analysed samples. Consider increasing sampling parameters or rerunning if this is unexpected." ])
  | _ =>
      Js.trim
        (Js.collapseBlankLines
           (Js.join (String Js.LF "")
              (headerLines result
               ++ [ "## Findings"; "" ]
               ++ flat_map sectionLines (sections (issues result)))))
  end.

End WithDates.

(** ** Grouping and ordering facts *)

Definition hasType (t : IssueType) (issue : Issue) : bool :=
  issueTypeEqb (type issue) t.


Definition orderIndex (t : IssueType) : Z := Js.indexOfZ issueTypeEqb t order.

Lemma orderIndex_inj (a b : IssueType) : orderIndex a = orderIndex b -> a = b.
Proof. destruct a, b; vm_compute; congruence. Qed.

Lemma issueTypeEqb_refl (t : IssueType) : issueTypeEqb t t = true.
Proof. destruct t; reflexivity. Qed.

Lemma issueTypeEqb_sym (a b : IssueType) : issueTypeEqb a b = issueTypeEqb b a.
Proof. destruct a, b; reflexivity. Qed.

Lemma getBucket_push (grouped : list (IssueType * list Issue)) (issue : Issue)
  (t : IssueType) :
  getBucket (pushToBucket grouped issue) t =
  getBucket grouped t ++ (if hasType t issue then [issue] else []).
Proof.
  unfold hasType.
  induction grouped as [|[t' bucket] rest IH]; simpl.
  - rewrite issueTypeEqb_sym. destruct (issueTypeEqb t (type issue)); reflexivity.
  - destruct (issueTypeEqb t' (type issue)) eqn:E1; simpl;
      destruct (issueTypeEqb t' t) eqn:E2; try exact IH.
    + apply issueTypeEqb_eq in E1, E2. subst. rewrite issueTypeEqb_refl. reflexivity.
    + destruct (issueTypeEqb (type issue) t) eqn:E3; [|symmetry; apply app_nil_r].
      apply issueTypeEqb_eq in E1, E3. subst. rewrite issueTypeEqb_refl in E2.
      discriminate.
    + destruct (issueTypeEqb (type issue) t) eqn:E3; [|symmetry; apply app_nil_r].
      apply issueTypeEqb_eq in E2, E3. subst. rewrite issueTypeEqb_refl in E1.
      discriminate.
Qed.

Lemma getBucket_fold (issues : list Issue) (grouped : list (IssueType * list Issue))
  (t : IssueType) :
  getBucket (fold_left pushToBucket issues grouped) t =
  getBucket grouped t ++ filter (hasType t) issues.
Proof.
  revert grouped. induction issues as [|i issues IH]; intros grouped; simpl.
  - symmetry. apply app_nil_r.
  - rewrite IH, getBucket_push, <- app_assoc.
    destruct (hasType t i); reflexivity.
Qed.

Lemma getBucket_groupByType (issues : list Issue) (t : IssueType) :
  getBucket (groupByType issues) t = filter (hasType t) issues.
Proof. unfold groupByType. rewrite getBucket_fold. reflexivity. Qed.

(** The keys of the map: no key twice, and a key for exactly the types
    that occur. *)
Lemma keys_push (grouped : list (IssueType * list Issue)) (issue : Issue) :
  map fst (pushToBucket grouped issue) =
  if existsb (fun t => issueTypeEqb t (type issue)) (map fst grouped)
  then map fst grouped
  else map fst grouped ++ [type issue].
Proof.
  induction grouped as [|[t' bucket] rest IH]; simpl; [reflexivity|].
  destruct (issueTypeEqb t' (type issue)); simpl; [reflexivity|].
  rewrite IH. destruct (existsb _ _); reflexivity.
Qed.

Lemma keys_fold (issues : list Issue) (grouped : list (IssueType * list Issue)) :
  NoDup (map fst grouped) ->
  NoDup (map fst (fold_left pushToBucket issues grouped)) /\
  forall t, In t (map fst (fold_left pushToBucket issues grouped)) <->
            In t (map fst grouped) \/ existsb (hasType t) issues = true.
Proof.
  revert grouped. induction issues as [|i issues IH]; intros grouped Hnd; simpl.
  - split; [exact Hnd|]. intros t. split; [auto | intros [H | H]; [exact H | discriminate]].
  - assert (Hpush : NoDup (map fst (pushToBucket grouped i)) /\
                    forall t, In t (map fst (pushToBucket grouped i)) <->
                              In t (map fst grouped) \/ type i = t).
    { rewrite keys_push.
      destruct (existsb (fun t => issueTypeEqb t (type i)) (map fst grouped)) eqn:E.
      - split; [exact Hnd|]. intros t. split; [auto|].
        intros [H | <-]; [exact H|].
        apply existsb_exists in E. destruct E as [t' [Hin Heq]].
        apply issueTypeEqb_eq in Heq. subst. exact Hin.
      - split.
        + apply NoDup_app; [exact Hnd | repeat constructor; intros [] |].
          intros t Hin [<- | []].
          assert (existsb (fun t' => issueTypeEqb t' (type i)) (map fst grouped) = true)
            by (apply existsb_exists; exists (type i); split;
                [exact Hin | apply issueTypeEqb_refl]).
          congruence.
        + intros t. rewrite in_app_iff. simpl. tauto. }
    destruct Hpush as [Hnd' Hin'].
    destruct (IH _ Hnd') as [Hnd'' Hin'']. split; [exact Hnd''|].
    intros t. rewrite Hin'', Hin'. unfold hasType at 2.
    destruct (issueTypeEqb (type i) t) eqn:E; simpl.
    + apply issueTypeEqb_eq in E. tauto.
    + assert (type i <> t) by (intros <-; rewrite issueTypeEqb_refl in E; discriminate).
      tauto.
Qed.

Lemma sorted_nodup_strict {A : Type} (key : A -> Z) (l : list A) :
  (forall a b, key a = key b -> a = b) ->
  NoDup l ->
  StronglySorted (fun a b => (key a <= key b)%Z) l ->
  StronglySorted (fun a b => (key a < key b)%Z) l.
Proof.
  intros Hinj. induction l as [|x l IH]; intros Hnd Hs; [constructor|].
  inversion Hnd as [|? ? Hx Hnd']; subst.
  inversion Hs as [|? ? Hs' Hall]; subst.
  constructor; [apply IH; assumption|].
  rewrite Forall_forall in *. intros y Hy. specialize (Hall y Hy).
  assert (key x <> key y) by (intros E; apply Hinj in E; subst; contradiction).
  lia.
Qed.


Lemma filter_strongly_sorted {A : Type} (R : A -> A -> Prop) (p : A -> bool) (l : list A) :
  StronglySorted R l -> StronglySorted R (filter p l).
Proof.
  induction 1 as [|x l Hs IH Hall]; simpl; [constructor|].
  destruct (p x); [|exact IH].
  constructor; [exact IH|].
  rewrite Forall_forall in *. intros y Hy. apply filter_In in Hy. apply Hall, Hy.
Qed.

Lemma order_strictly_sorted :
  StronglySorted (fun a b => (orderIndex a < orderIndex b)%Z) order.
Proof. unfold order. repeat constructor; vm_compute; reflexivity. Qed.

Definition occurs (issues : list Issue) (t : IssueType) : bool :=
  existsb (hasType t) issues.

Lemma sortedTypes_groupByType (issues : list Issue) :
  sortedTypes (groupByType issues) = filter (occurs issues) order.
Proof.
  destruct (keys_fold issues [] (NoDup_nil _)) as [Hnd Hin].
  apply (Js.strictly_sorted_unique orderIndex).
  - apply sorted_nodup_strict.
    + apply orderIndex_inj.
    + unfold sortedTypes.
      eapply Permutation_NoDup; [apply Permutation_sym, Js.sortBy_perm | exact Hnd].
    + unfold sortedTypes.
      apply (Js.sortBy_sorted _ orderIndex). intros a b. reflexivity.
  - apply filter_strongly_sorted, order_strictly_sorted.
  - intros t. unfold sortedTypes. rewrite Js.sortBy_In.
    unfold groupByType. rewrite Hin, filter_In. unfold occurs. simpl.
    split.
    + intros [[] | H]. split; [|exact H]. destruct t; simpl; tauto.
    + intros [_ H]. right. exact H.
Qed.

Definition bySeverity (a b : Issue) : Z :=
  (severityRank (severity b) - severityRank (severity a))%Z.

Lemma flat_map_singletons {A B : Type} (F : A -> list B) (G : A -> B) (l : list A) :
  (forall x, In x l -> F x = [G x]) -> flat_map F l = map G l.
Proof.
  induction l as [|x l IH]; intros H; simpl; [reflexivity|].
  rewrite (H x (or_introl eq_refl)), IH; [reflexivity|].
  intros y Hy. apply H. right. exact Hy.
Qed.

(** What the report writes: one section per type that occurs, in the
    fixed order, holding the issues of that type sorted by severity. *)
Lemma sections_spec (issues : list Issue) :
  sections issues =
  map (fun t => (t, Js.sortBy bySeverity (filter (hasType t) issues)))
      (filter (occurs issues) order).
Proof.
  unfold sections. cbv zeta. rewrite sortedTypes_groupByType.
  apply flat_map_singletons. intros t Ht.
  rewrite getBucket_groupByType.
  destruct (filter (hasType t) issues) as [|i l] eqn:Ef; [|reflexivity].
  exfalso. apply filter_In in Ht. destruct Ht as [_ Hocc].
  unfold occurs in Hocc. apply existsb_exists in Hocc. destruct Hocc as [i [Hi Ht]].
  assert (Hin : In i (filter (hasType t) issues)) by (apply filter_In; auto).
  rewrite Ef in Hin. contradiction.
Qed.

(** ** The claim about the rendered report *)


Definition finding (n : string) (s : Severity) (t : string) : Issue :=
  mkIssue n security s t "" None None None None None None None.

Definition exampleReport : ScanResult :=
  mkScanResult (mkRepoRef "acme" "shop" None)
    "2025-01-01T00:00:00.000Z" "2025-01-01T00:01:00.000Z"
    [("files", 3); ("agents", 6)]
    [ finding "security-a" low "Verbose error page";
      finding "security-b" critical "Command injection";
      finding "security-c" medium "Missing CSRF token" ]
    None vercel "moonshotai/kimi-k2-0905" None "" (Some []).


End Report.

(* ================================================================== *)
(** * lib/ai/tools/codegraph.ts *)
(* ================================================================== *)

Module CodeGraph.

Inductive ChunkKind := function | class | module | component | code.

Record CodeChunk := mkCodeChunk {
  id : string;
  file : string;
  kind : ChunkKind;
  name : option string;
  text : string;
  startLine : nat;
  endLine : nat
}.

(** What the traversal looks at in a ts-morph node. *)
Inductive SyntaxKind :=
  FunctionDeclaration | ClassDeclaration | VariableStatement | OtherKind.

Record Node := mkNode {
  getKind : SyntaxKind;
  getName : option string;
  getStart : nat;
  getEnd : nat
}.

(** A source file of the in-memory project: its absolute path and its
    text. *)
Definition SourceFile : Type := string * string.

(** [sf.getFilePath()] for a file created at a relative path: the
    in-memory file system is rooted at [/]. *)
Definition getFilePath (p : string) : string :=
  if Js.startsWith p "/" then p else ("/" ++ p)%string.

(** [sf.getBaseName()]: the last segment of the path. *)
Definition getBaseName (filePath : string) : string :=
  last (Js.split "/" filePath) EmptyString.

(** [sf.getLineAndColumnAtPos(pos).line]: one more than the number of line
    breaks (LF, CR, CR LF) before [pos]. *)
Fixpoint lineBreaksBefore (pos : nat) (s : string) : nat :=
  match pos, s with
  | S pos', String c s' =>
      let CR := ascii_of_nat 13 in
      if Ascii.eqb c Js.LF then S (lineBreaksBefore pos' s')
      else if Ascii.eqb c CR then
        match s' with
        | String d _ =>
            if Ascii.eqb d Js.LF then lineBreaksBefore pos' s'
            else S (lineBreaksBefore pos' s')
        | EmptyString => S (lineBreaksBefore pos' s')
        end
      else lineBreaksBefore pos' s'
  | _, _ => 0
  end.

Definition lineAtPos (sourceText : string) (pos : nat) : nat :=
  S (lineBreaksBefore pos sourceText).

(** [/\.(ts|tsx|js|jsx|mjs|cjs)$/.test(path)]. *)
Definition isSourcePath (p : string) : bool :=
  existsb (Js.endsWith p) [".ts"; ".tsx"; ".js"; ".jsx"; ".mjs"; ".cjs"].

(** [project.createSourceFile(path, text, { overwrite: true })]. *)
Fixpoint createSourceFile (project : list SourceFile) (filePath text : string)
  : list SourceFile :=
  match project with
  | [] => [(filePath, text)]
  | (p, t) :: rest =>
      if String.eqb p filePath then (p, text) :: rest
      else (p, t) :: createSourceFile rest filePath text
  end.

Definition loadProject (files : list RepoFile) : list SourceFile :=
  fold_left
    (fun project f =>
       if isBinary f then project
       else match content f with
            | None => project
            | Some buf =>
                if isSourcePath (path f)
                then createSourceFile project (getFilePath (path f)) buf
                else project
            end)
    files [].

Section WithTsMorph.

(** [sf.forEachDescendant]: the nodes of the syntax tree of a source file,
    in traversal order; the parser reads the text, and the script kind
    from the file name. *)
Variable descendants : string -> string -> list Node.

(** [project.getSourceFiles()]: the files of the project, in the order
    ts-morph lists them. *)
Variable getSourceFiles : list SourceFile -> list SourceFile.

Variable regexTest : Js.RegexLiteral -> string -> bool.

(** The closure [add] of the loop body. *)
Definition add (sf : SourceFile) (kind : ChunkKind) (name : option string)
  (start end_ : nat) : CodeChunk :=
  let sourceText := snd sf in
  let startLine := lineAtPos sourceText start in
  let endLine := lineAtPos sourceText end_ in
  mkCodeChunk
    (getBaseName (fst sf) ++ ":" ++ Js.natToString startLine ++ "-"
       ++ Js.natToString endLine)%string
    (fst sf) kind name (Js.slice start end_ sourceText) startLine endLine.

(** The callback of [forEachDescendant] on one node. *)
Definition visit (sf : SourceFile) (node : Node) : list CodeChunk :=
  match getKind node with
  | FunctionDeclaration => [add sf function (getName node) (getStart node) (getEnd node)]
  | ClassDeclaration => [add sf class (getName node) (getStart node) (getEnd node)]
  | VariableStatement =>
      let text := Js.slice (getStart node) (getEnd node) (snd sf) in
      if regexTest Js.ComponentBinding text && (80 <? String.length text)
      then [add sf component None (getStart node) (getEnd node)]
      else []
  | OtherKind => []
  end.

(** One iteration of the loop over the source files: the chunks of the
    nodes, then the whole-file chunk if [chunks] holds none of this file. *)
Definition chunkSourceFile (chunks : list CodeChunk) (sf : SourceFile)
  : list CodeChunk :=
  let chunks := chunks ++ flat_map (visit sf) (descendants (getBaseName (fst sf)) (snd sf)) in
  if length (filter (fun c => String.eqb (file c) (fst sf)) chunks) =? 0 then
    let endLine := lineAtPos (snd sf) (String.length (snd sf)) in
    chunks ++
    [ mkCodeChunk
        (getBaseName (fst sf) ++ ":1-" ++ Js.natToString endLine)%string
        (fst sf) code None (snd sf) 1 endLine ]
  else chunks.

Definition buildCodeGraph (files : list RepoFile) : list CodeChunk :=
  fold_left chunkSourceFile (getSourceFiles (loadProject files)) [].


(** ** Chunk ids see the base name and the lines only *)

Definition ownChunks (sf : SourceFile) : list CodeChunk :=
  flat_map (visit sf) (descendants (getBaseName (fst sf)) (snd sf)).

Definition wholeFileChunk (sf : SourceFile) : CodeChunk :=
  let endLine := lineAtPos (snd sf) (String.length (snd sf)) in
  mkCodeChunk (getBaseName (fst sf) ++ ":1-" ++ Js.natToString endLine)%string
              (fst sf) code None (snd sf) 1 endLine.

Lemma visit_file (sf : SourceFile) (node : Node) (c : CodeChunk) :
  In c (visit sf node) -> file c = fst sf.
Proof.
  unfold visit. destruct (getKind node); simpl.
  - intros [<- | []]. reflexivity.
  - intros [<- | []]. reflexivity.
  - destruct (_ && _); simpl; [intros [<- | []]; reflexivity | tauto].
  - tauto.
Qed.

Lemma ownChunks_file (sf : SourceFile) (c : CodeChunk) :
  In c (ownChunks sf) -> file c = fst sf.
Proof.
  unfold ownChunks. rewrite in_flat_map. intros [node [_ Hc]].
  apply (visit_file sf node c Hc).
Qed.

Lemma visit_ids (p1 p2 t : string) (node : Node) :
  getBaseName p1 = getBaseName p2 ->
  map id (visit (p1, t) node) = map id (visit (p2, t) node).
Proof.
  intros Hb. unfold visit, add. simpl. rewrite Hb.
  destruct (getKind node); simpl; try reflexivity.
  destruct (_ && _); reflexivity.
Qed.

Lemma ownChunks_ids (p1 p2 t : string) :
  getBaseName p1 = getBaseName p2 ->
  map id (ownChunks (p1, t)) = map id (ownChunks (p2, t)).
Proof.
  intros Hb. unfold ownChunks. simpl. rewrite Hb.
  induction (descendants (getBaseName p2) t) as [|node nodes IH]; simpl; [reflexivity|].
  rewrite !map_app, IH, (visit_ids p1 p2 t node Hb). reflexivity.
Qed.

Lemma chunkSourceFile_shape (chunks : list CodeChunk) (sf : SourceFile) :
  (forall c, In c chunks -> file c <> fst sf) ->
  chunkSourceFile chunks sf =
  chunks ++ match ownChunks sf with
            | [] => [wholeFileChunk sf]
            | own => own
            end.
Proof.
  intros Hother. unfold chunkSourceFile. fold (ownChunks sf).
  rewrite filter_app.
  assert (Hnone : filter (fun c => String.eqb (file c) (fst sf)) chunks = []).
  { induction chunks as [|c chunks IH]; simpl; [reflexivity|].
    destruct (String.eqb (file c) (fst sf)) eqn:E.
    - apply String.eqb_eq in E. exfalso. apply (Hother c); [left; reflexivity | exact E].
    - apply IH. intros d Hd. apply Hother. right. exact Hd. }
  rewrite Hnone. simpl.
  destruct (ownChunks sf) as [|c own] eqn:Eown; simpl.
  - rewrite app_nil_r. reflexivity.
  - rewrite (ownChunks_file sf c) by (rewrite Eown; left; reflexivity).
    rewrite String.eqb_refl. reflexivity.
Qed.

(** The chunks that one file contributes all carry its path, and the
    first of them has an id read off the base name and the text. *)
Definition fileChunks (sf : SourceFile) : list CodeChunk :=
  match ownChunks sf with
  | [] => [wholeFileChunk sf]
  | own => own
  end.

Lemma fileChunks_file (sf : SourceFile) (c : CodeChunk) :
  In c (fileChunks sf) -> file c = fst sf.
Proof.
  unfold fileChunks. destruct (ownChunks sf) as [|d own] eqn:E.
  - intros [<- | []]. reflexivity.
  - rewrite <- E. apply ownChunks_file.
Qed.

Lemma fileChunks_ids (p1 p2 t : string) :
  getBaseName p1 = getBaseName p2 ->
  map id (fileChunks (p1, t)) = map id (fileChunks (p2, t)).
Proof.
  intros Hb. pose proof (ownChunks_ids p1 p2 t Hb) as Hids. unfold fileChunks.
  destruct (ownChunks (p1, t)), (ownChunks (p2, t)); try discriminate Hids.
  - unfold wholeFileChunk. simpl. rewrite Hb. reflexivity.
  - exact Hids.
Qed.

Lemma fileChunks_nonempty (sf : SourceFile) : fileChunks sf <> [].
Proof. unfold fileChunks. destruct (ownChunks sf); discriminate. Qed.

Lemma two_files_chunks (sfA sfB : SourceFile) :
  fst sfA <> fst sfB ->
  fold_left chunkSourceFile [sfA; sfB] [] = fileChunks sfA ++ fileChunks sfB.
Proof.
  intros Hne. simpl.
  rewrite (chunkSourceFile_shape [] sfA) by (intros c []).
  simpl. fold (fileChunks sfA).
  rewrite chunkSourceFile_shape; [reflexivity|].
  intros c Hc E. apply fileChunks_file in Hc. congruence.
Qed.

End WithTsMorph.

(** ** The claim about chunk ids *)

(** C9.  A chunk id is built from the base name of the file and the line
    span, not from its path: when the chunker is given two text files in
    different directories with the same base name and the same content, it
    emits a chunk of the one and a chunk of the other with the same id, so
    ids are not unique across the files of one scan. *)
Theorem chunk_ids_collide_across_directories
  (descendants : string -> string -> list Node)
  (getSourceFiles : list SourceFile -> list SourceFile)
  (regexTest : Js.RegexLiteral -> string -> bool)
  (f1 f2 : RepoFile) (sourceText : string) :
  (forall project, Permutation project (getSourceFiles project)) ->
  isBinary f1 = false -> isBinary f2 = false ->
  content f1 = Some sourceText -> content f2 = Some sourceText ->
  isSourcePath (path f1) = true -> isSourcePath (path f2) = true ->
  getFilePath (path f1) <> getFilePath (path f2) ->
  getBaseName (getFilePath (path f1)) = getBaseName (getFilePath (path f2)) ->
  exists c1 c2,
    In c1 (buildCodeGraph descendants getSourceFiles regexTest [f1; f2]) /\
    In c2 (buildCodeGraph descendants getSourceFiles regexTest [f1; f2]) /\
    file c1 = getFilePath (path f1) /\
    file c2 = getFilePath (path f2) /\
    file c1 <> file c2 /\
    id c1 = id c2.
Proof.
  intros Hperm Hb1 Hb2 Hc1 Hc2 Hs1 Hs2 Hne Hbase.
  set (sf1 := (getFilePath (path f1), sourceText)).
  set (sf2 := (getFilePath (path f2), sourceText)).
  assert (Hproject : loadProject [f1; f2] = [sf1; sf2]).
  { unfold loadProject. simpl. rewrite Hb1, Hb2, Hc1, Hc2, Hs1, Hs2. simpl.
    destruct (String.eqb (getFilePath (path f1)) (getFilePath (path f2))) eqn:E;
      [apply String.eqb_eq in E; contradiction | reflexivity]. }
  pose proof (fileChunks_ids descendants regexTest _ _ sourceText Hbase) as Hids.
  fold sf1 sf2 in Hids.
  destruct (fileChunks descendants regexTest sf1) as [|c1 rest1] eqn:E1;
    [exfalso; exact (fileChunks_nonempty descendants regexTest sf1 E1)|].
  destruct (fileChunks descendants regexTest sf2) as [|c2 rest2] eqn:E2;
    [exfalso; exact (fileChunks_nonempty descendants regexTest sf2 E2)|].
  assert (Hf1 : file c1 = fst sf1)
    by (apply (fileChunks_file descendants regexTest); rewrite E1; left; reflexivity).
  assert (Hf2 : file c2 = fst sf2)
    by (apply (fileChunks_file descendants regexTest); rewrite E2; left; reflexivity).
  assert (Hin : In c1 (buildCodeGraph descendants getSourceFiles regexTest [f1; f2]) /\
                In c2 (buildCodeGraph descendants getSourceFiles regexTest [f1; f2])).
  { unfold buildCodeGraph. rewrite Hproject.
    destruct (Permutation_length_2_inv (Hperm [sf1; sf2])) as [-> | ->].
    - rewrite two_files_chunks by exact Hne. rewrite E1, E2.
      split; [left; reflexivity | apply in_or_app; right; left; reflexivity].
    - rewrite two_files_chunks by (intros E; apply Hne; symmetry; exact E).
      rewrite E1, E2.
      split; [apply in_or_app; right; left; reflexivity | left; reflexivity]. }
  exists c1, c2. destruct Hin as [Hin1 Hin2].
  repeat split; try assumption.
  - rewrite Hf1, Hf2. exact Hne.
  - simpl in Hids. congruence.
Qed.

Definition headerIndex : RepoFile :=
  mkRepoFile "components/header/index.tsx" (Some "export const title = 1") false.

Definition footerIndex : RepoFile :=
  mkRepoFile "components/footer/index.tsx" (Some "export const title = 1") false.

Lemma chunk_ids_collide_across_directories_witness :
  exists c1 c2,
    In c1 (buildCodeGraph (fun _ _ => []) (fun project => project) (fun _ _ => false)
             [headerIndex; footerIndex]) /\
    In c2 (buildCodeGraph (fun _ _ => []) (fun project => project) (fun _ _ => false)
             [headerIndex; footerIndex]) /\
    file c1 = getFilePath (path headerIndex) /\
    file c2 = getFilePath (path footerIndex) /\
    file c1 <> file c2 /\
    id c1 = id c2.
Proof.
  apply (chunk_ids_collide_across_directories
           (fun _ _ => []) (fun project => project) (fun _ _ => false)
           headerIndex footerIndex "export const title = 1").
  - intros project. apply Permutation_refl.
  - reflexivity.
  - reflexivity.
  - reflexivity.
  - reflexivity.
  - reflexivity.
  - reflexivity.
  - vm_compute. discriminate.
  - reflexivity.
Defined.

End CodeGraph.

(* ================================================================== *)
(** * lib/ai/tools/streaming.ts *)
(* ================================================================== *)

Module Streaming.

Inductive ProgressStage :=
  | initializing | downloading | extracting | sampling | parsing
  | heuristics | analyzing | synthesizing | complete | error.

Record Details := mkDetails {
  filesProcessed : option nat;
  totalFiles : option nat;
  chunksCreated : option nat;
  issuesFound : option nat;
  currentAgent : option string;
  agentsComplete : option nat;
  totalAgents : option nat
}.

Definition noDetails : Details :=
  mkDetails None None None None None None None.

Record PartialResults := mkPartialResults {
  partialIssues : option (list Types.Issue);
  partialStats : option (list (string * nat))
}.

(** What [emit] is given: a [ProgressUpdate] before the time stamp is
    added. *)
Record ProgressUpdate := mkProgressUpdate {
  stage : ProgressStage;
  progress : Q;
  message : string;
  details : option Details;
  partialResults : option PartialResults;
  errorText : option string
}.

(** The convenience methods of [ProgressStream], as the update they
    emit. *)
Definition stageUpdate (s : ProgressStage) (p : Q) (msg : string) (d : option Details)
  : ProgressUpdate :=
  mkProgressUpdate s p msg d None None.

Definition errorUpdate (msg err : string) : ProgressUpdate :=
  mkProgressUpdate error 0%Q msg None None (Some err).

Definition completeUpdate (msg : string) (partial : option PartialResults)
  : ProgressUpdate :=
  mkProgressUpdate complete 100%Q msg None partial None.

(** [stageWeights[stage]]: where the stage starts and how much of the
    scale it covers. *)
Definition stageWeights (s : ProgressStage) : Q * Q :=
  match s with
  | initializing => (0%Q, 5%Q)
  | downloading => (5%Q, 10%Q)
  | extracting => (15%Q, 10%Q)
  | sampling => (25%Q, 5%Q)
  | parsing => (30%Q, 10%Q)
  | heuristics => (40%Q, 5%Q)
  | analyzing => (45%Q, 40%Q)
  | synthesizing => (85%Q, 10%Q)
  | complete => (100%Q, 0%Q)
  | error => (0%Q, 0%Q)
  end.

(** [Math.min(100, start + (weight * substageProgress / 100))], in exact
    rationals and in lowest terms (the source computes in binary64, which
    is exact at the whole percentages 0 and 100). *)
Definition calculateProgress (s : ProgressStage) (substageProgress : Q) : Q :=
  let '(start, weight) := stageWeights s in
  let value := (start + weight * substageProgress / 100)%Q in
  Qred (if Qle_bool 100 value then 100%Q else value).

End Streaming.

(* ================================================================== *)
(** * lib/ai/provider.ts: the process-wide provider selection *)
(* ================================================================== *)

Module Provider.

Import Types.

(** The defaults read from the environment when the module is loaded. *)
Record Defaults := mkDefaults {
  DEFAULT_VERCEL_MODEL : string;
  DEFAULT_OPENROUTER_MODEL : string;
  DEFAULT_OPENROUTER_PROVIDER : option string
}.

Definition getDefaultModelForProvider (env : Defaults) (p : AIProviderName) : string :=
  match p with
  | openrouter => DEFAULT_OPENROUTER_MODEL env
  | vercel => DEFAULT_VERCEL_MODEL env
  end.

Definition getOpenRouterProvider (env : Defaults) : option string :=
  DEFAULT_OPENROUTER_PROVIDER env.

End Provider.

(* ================================================================== *)
(** * lib/ai/agents/coordinator.ts *)
(* ================================================================== *)

Module Coordinator.

Import Types.

(** ** Values that come back from the model *)

(** An element of an agent's array, read through the casts of the source:
    an object with the optional fields that the coordinator looks at (the
    fields of an issue and those of a codemod plan). *)
Record RawItem := mkRawItem {
  itemSeverity : option string;
  itemTitle : option string;
  itemDescription : option string;
  itemRecommendation : option string;
  itemDocs : option (list DocRef);
  issueTitle : option string;
  itemCodemod : option Codemod
}.

(** A value of type [unknown]: an array, a string, or anything else, of
    which only [typeof] is looked at. *)
Inductive JsValue :=
  | JArray (items : list RawItem)
  | JString (s : string)
  | JOther (typeofName : string).

Definition typeOf (v : JsValue) : string :=
  match v with
  | JArray _ => "object"
  | JString _ => "string"
  | JOther t => t
  end.

(** A thrown error: its message and the raw model text that the AI SDK
    attaches to it ([err.cause.text], [err.text]). *)
Record JsError := mkJsError {
  errMessage : string;
  causeText : option string;
  errText : option string
}.

Section WithJson.

(** [JSON.parse]: the parsed value, or the message of the SyntaxError. *)
Variable JSON_parse : string -> string + JsValue.

(** ** normalizeAgentOutput *)

(** The texts to try, with their labels. *)
Definition attemptsOf (trimmed : string) : list (string * string) :=
  ("raw", trimmed) ::
  match Js.indexOf "[" trimmed, Js.lastIndexOf "]" trimmed with
  | Some start, Some end_ =>
      if start <? end_ then
        let slice := Js.slice start (end_ + 1) trimmed in
        if negb (String.eqb slice trimmed) then [("array-slice", slice)] else []
      else []
  | _, _ => []
  end.

(** The loop over the attempts; [warnings] is the array of the enclosing
    run, returned with what the call pushed. *)
Fixpoint tryAttempts (agent : string) (attempts : list (string * string))
  (lastError : option string) (warnings : list string)
  : list RawItem * list string :=
  match attempts with
  | [] =>
      ([], warnings ++
           [ (agent ++ ": failed to parse JSON ("
                ++ match lastError with Some m => m | None => "unknown error" end
                ++ ")")%string ])
  | (label, text) :: rest =>
      match JSON_parse text with
      | inr (JArray parsed) =>
          (parsed,
           if negb (String.eqb label "raw")
           then warnings ++ [ (agent ++ ": parsed after " ++ label ++ " extraction")%string ]
           else warnings)
      | inr parsed =>
          ([], warnings ++
               [ (agent ++ ": parsed JSON was not an array (received "
                    ++ typeOf parsed ++ ")")%string ])
      | inl err => tryAttempts agent rest (Some err) warnings
      end
  end.

Definition normalizeAgentOutput (agent : string) (raw : JsValue) (warnings : list string)
  : list RawItem * list string :=
  match raw with
  | JArray items => (items, warnings)
  | JString s =>
      if (String.length (Js.trim s) =? 0)
      then ([], warnings ++ [ (agent ++ ": empty response from model")%string ])
      else tryAttempts agent (attemptsOf (Js.trim s)) None warnings
  | JOther _ => ([], warnings ++ [ (agent ++ ": empty response from model")%string ])
  end.

(** ** Facts about the recovery ladder *)



End WithJson.

(** ** The claim about normalizeAgentOutput *)


(** A parser that knows the texts of the examples. *)
Definition blankItem : RawItem := mkRawItem None None None None None None None.

Definition sampleParse (text : string) : string + JsValue :=
  if String.eqb text "[]" then inr (JArray [])
  else if String.eqb text "[{}]" then inr (JArray [blankItem])
  else if String.eqb text "{}" then inr (JOther "object")
  else inl "Unexpected token in JSON".


(** ** The run: shared state, events, exceptions *)

Inductive Agent := UIUX | Backend | Database | Security | Performance | Lint.

Definition allAgents : list Agent :=
  [UIUX; Backend; Database; Security; Performance; Lint].

Definition agentEqb (a b : Agent) : bool :=
  match a, b with
  | UIUX, UIUX | Backend, Backend | Database, Database | Security, Security
  | Performance, Performance | Lint, Lint => true
  | _, _ => false
  end.

(** The name [agentWrapper] is given for each analyzer. *)
Definition agentName (a : Agent) : string :=
  match a with
  | UIUX => "UI/UX" | Backend => "Backend" | Database => "Database"
  | Security => "Security" | Performance => "Performance" | Lint => "Lint"
  end.

(** The argument of each analyzer. *)
Inductive AgentContext :=
  | CodeSamples (summary : string) (codeSamples : list string)
  | Schema (summary schema : string)
  | RuleHitList (summary : string) (ruleHits : list string)
  | FileList (list : list (string * string)).

(** How a model call ends. *)
Inductive Outcome :=
  | Resolved (value : JsValue)
  | Rejected (err : JsError).

Record Context7Snippet := mkSnippet {
  snippetTitle : string;
  snippetUrl : string;
  snippet : string
}.

(** What is observable of a run, in order: the updates emitted on the
    progress stream, the settling of each wrapped analyzer promise
    (fulfilled or not), and the call of the remediation planner with its
    argument. *)
Inductive Event :=
  | Emitted (update : Streaming.ProgressUpdate)
  | AnalyzerSettled (a : Agent) (fulfilled : bool)
  | PlannerCalled (issues : list Issue).

(** The state a run can touch: [activeProvider] of lib/ai/provider.ts and
    the events so far. *)
Record World := mkWorld {
  activeProvider : AIProviderName;
  log : list Event
}.

Inductive Result (A : Type) :=
  | Returned (a : A)
  | Thrown (e : JsError).

Arguments Returned {A} a.
Arguments Thrown {A} e.

Definition M (A : Type) : Type := World -> Result A * World.

Definition ret {A : Type} (a : A) : M A := fun w => (Returned a, w).

Definition bind {A B : Type} (m : M A) (k : A -> M B) : M B :=
  fun w =>
    match m w with
    | (Returned a, w') => k a w'
    | (Thrown e, w') => (Thrown e, w')
    end.

Definition throw {A : Type} (e : JsError) : M A := fun w => (Thrown e, w).

(** [try { body } finally { cleanup }]. *)
Definition tryFinally {A : Type} (body : M A) (cleanup : M unit) : M A :=
  fun w =>
    match body w with
    | (r, w') =>
        match cleanup w' with
        | (Returned _, w'') => (r, w'')
        | (Thrown e, w'') => (Thrown e, w'')
        end
    end.

Notation "x <- m ;; k" := (bind m (fun x => k))
  (at level 61, m at next level, right associativity).
Notation "m ;;; k" := (bind m (fun _ => k))
  (at level 61, right associativity).

Definition getAIProvider : M AIProviderName :=
  fun w => (Returned (activeProvider w), w).

Definition setAIProvider (p : AIProviderName) : M unit :=
  fun w => (Returned tt, mkWorld p (log w)).

Definition record (e : Event) : M unit :=
  fun w => (Returned tt, mkWorld (activeProvider w) (log w ++ [e])).

Module Input.

Record t := mk {
  repo : RepoRef;
  files : list RepoFile;
  prismaSchema : option string;
  provider : option AIProviderName;
  progressStream : bool
}.

End Input.

(** [progress?.stage(...)] and [progress?.complete(...)]. *)
Definition stage (input : Input.t) (s : Streaming.ProgressStage) (p : Q) (msg : string)
  (d : option Streaming.Details) : M unit :=
  if Input.progressStream input then record (Emitted (Streaming.stageUpdate s p msg d))
  else ret tt.

Definition complete (input : Input.t) (msg : string)
  (partial : option Streaming.PartialResults) : M unit :=
  if Input.progressStream input then record (Emitted (Streaming.completeUpdate msg partial))
  else ret tt.

(** The libraries and the host: micromatch, regular expressions, ts-morph,
    JSON.parse, the locale, the environment defaults. *)
Record Runtime := mkRuntime {
  isMatch : string -> list string -> bool -> bool;
  regexTest : Js.RegexLiteral -> string -> bool;
  descendants : string -> string -> list CodeGraph.Node;
  getSourceFiles : list CodeGraph.SourceFile -> list CodeGraph.SourceFile;
  parseJson : string -> string + JsValue;
  toLocaleString : string -> string;
  defaults : Provider.Defaults
}.

(** What the outside world does during one run: how each model call ends
    and how long it takes, what the documentation server answers ([None]:
    the import or the call fails), the successive values of
    [Math.random().toString(36).slice(2, 8)], and the clock. *)
Record Oracle := mkOracle {
  analyze : Agent -> AgentContext -> Outcome;
  duration : Agent -> nat;
  codemodAgentPlan : list Issue -> Outcome;
  getContext7Docs : string -> option (list Context7Snippet);
  randomSuffix : nat -> string;
  startedAtIso : string;
  finishedAtIso : string
}.

(** ** pLimit(3) and Promise.all

    The six tasks are queued in array order and at most three run at a
    time: a queued task starts when the earliest running one settles.
    The wrapped promises settle in the order of their finish times (array
    order among equal times). *)
Fixpoint removeOne (x : nat) (l : list nat) : list nat :=
  match l with
  | [] => []
  | y :: l' => if x =? y then l' else y :: removeOne x l'
  end.

Fixpoint finishTimes (concurrency : nat) (queue : list (Agent * nat)) (running : list nat)
  : list (Agent * nat) :=
  match queue with
  | [] => []
  | (a, d) :: rest =>
      if length running <? concurrency then
        (a, d) :: finishTimes concurrency rest (d :: running)
      else
        let start := fold_right Nat.min (hd 0 running) running in
        (a, start + d)
          :: finishTimes concurrency rest ((start + d) :: removeOne start running)
  end.

Definition settleOrder (oracle : Oracle) : list Agent :=
  map fst
    (Js.sortBy (fun x y => Z.of_nat (snd x) - Z.of_nat (snd y))%Z
       (finishTimes 3 (map (fun a => (a, duration oracle a)) allAgents) [])).

(** ** agentWrapper *)

(** [cleaned.replace(/^```(?:json)?\n?/, '').replace(/\n?```$/, '').trim()]
    for a text that starts with the fence. *)
Definition dropIfStart (p s : string) : string :=
  if Js.startsWith s p then Js.dropStart (String.length p) s else s.

Definition dropIfEnd (p s : string) : string :=
  if Js.endsWith s p then Js.dropEnd (String.length p) s else s.

Definition unwrapMarkdown (text : string) : string :=
  let cleaned := Js.trim text in
  if Js.startsWith cleaned "```" then
    let opened :=
      dropIfStart (String Js.LF "") (dropIfStart "json" (dropIfStart "```" cleaned)) in
    let closed :=
      if Js.endsWith opened "```"
      then dropIfEnd (String Js.LF "") (dropIfEnd "```" opened)
      else opened in
    Js.trim closed
  else cleaned.

(** [err?.cause?.text || err?.text]. *)
Definition recoverableText (err : JsError) : option string :=
  match Js.truthy (causeText err) with
  | Some t => Some t
  | None => Js.truthy (errText err)
  end.

Definition analyzingDetails (completedAgents : nat) (current : option string)
  : Streaming.Details :=
  Streaming.mkDetails None None None None current (Some completedAgents) (Some 6).

Section WithRuntime.

Variable rt : Runtime.
Variable oracle : Oracle.
Variable input : Input.t.

(** [agentWrapper(name, fn)] once [fn()] has ended with [outcome];
    [completedAgents] is the counter of the enclosing run, returned with
    the result. *)
Definition agentWrapper (a : Agent) (outcome : Outcome) (completedAgents : nat)
  : M (JsValue * nat) :=
  match outcome with
  | Resolved result =>
      let completedAgents := completedAgents + 1 in
      stage input Streaming.analyzing
        (Streaming.calculateProgress Streaming.analyzing
           ((Z.of_nat completedAgents # 6) * 100)%Q)
        ("Completed " ++ agentName a ++ " agent (" ++ Js.natToString completedAgents
           ++ "/6)")%string
        (Some (analyzingDetails completedAgents (Some (agentName a)))) ;;;
      record (AnalyzerSettled a true) ;;;
      ret (result, completedAgents)
  | Rejected err =>
      let completedAgents := completedAgents + 1 in
      match recoverableText err with
      | Some text =>
          match parseJson rt (unwrapMarkdown text) with
          | inr parsed =>
              record (AnalyzerSettled a true) ;;;
              ret (parsed, completedAgents - 1)
          | inl _ =>
              record (AnalyzerSettled a false) ;;;
              throw err
          end
      | None =>
          record (AnalyzerSettled a false) ;;;
          throw err
      end
  end.

(** [await Promise.all([...])]: the wrapped promises settle in [order];
    the first rejection rejects the whole, otherwise every value is
    kept under its analyzer. *)
Fixpoint awaitAll (outcomeOf : Agent -> Outcome) (order : list Agent)
  (completedAgents : nat) (settled : list (Agent * JsValue))
  : M (list (Agent * JsValue)) :=
  match order with
  | [] => ret settled
  | a :: rest =>
      r <- agentWrapper a (outcomeOf a) completedAgents ;;
      awaitAll outcomeOf rest (snd r) (settled ++ [(a, fst r)])
  end.

Fixpoint valueOf (settled : list (Agent * JsValue)) (a : Agent) : JsValue :=
  match settled with
  | [] => JOther "undefined"
  | (b, v) :: rest => if agentEqb a b then v else valueOf rest a
  end.

End WithRuntime.

(** ** Merging the findings *)

(** The severity check of the merge loop: one of the five names, or
    [medium]. *)
Definition severityOf (it : RawItem) : Severity :=
  let severity := match itemSeverity it with Some s => s | None => "medium" end in
  if String.eqb severity "critical" then critical
  else if String.eqb severity "high" then high
  else if String.eqb severity "medium" then medium
  else if String.eqb severity "low" then low
  else if String.eqb severity "info" then info
  else medium.

(** The issue pushed for one element of an analyzer's array; [suffix] is
    the random part of its id. *)
Definition issueOf (t : IssueType) (suffix : string) (it : RawItem) : Issue :=
  mkIssue
    (issueTypeName t ++ "-" ++ suffix)%string
    t
    (severityOf it)
    (match itemTitle it with Some s => s | None => "Issue" end)
    (match itemDescription it with Some s => s | None => "" end)
    None None None
    (itemRecommendation it)
    None
    (itemDocs it)
    None.

(** The state of the merge loop: the issues, the warnings, and how many
    random suffixes were drawn. *)
Record Merge := mkMerge {
  mergedIssues : list Issue;
  mergedWarnings : list string;
  drawn : nat
}.

Section WithRuntime.

Variable rt : Runtime.
Variable oracle : Oracle.

Fixpoint pushItems (t : IssueType) (arr : list RawItem) (issues : list Issue) (n : nat)
  : list Issue * nat :=
  match arr with
  | [] => (issues, n)
  | it :: rest =>
      pushItems t rest (issues ++ [issueOf t (randomSuffix oracle n) it]) (S n)
  end.

(** One turn of [for (const [type, raw] of [...])]. *)
Definition mergeOne (m : Merge) (entry : IssueType * JsValue) : Merge :=
  let '(arr, warnings) :=
    normalizeAgentOutput (parseJson rt) (issueTypeName (fst entry)) (snd entry)
                         (mergedWarnings m) in
  let '(issues, n) := pushItems (fst entry) arr (mergedIssues m) (drawn m) in
  mkMerge issues warnings n.

(** The analyzers' values in the order the merge reads them. *)
Definition mergeOrder (settled : list (Agent * JsValue)) : list (IssueType * JsValue) :=
  [ (ux, valueOf settled UIUX);
    (backend, valueOf settled Backend);
    (db, valueOf settled Database);
    (security, valueOf settled Security);
    (performance, valueOf settled Performance);
    (lint, valueOf settled Lint) ].

Definition mergeFindings (settled : list (Agent * JsValue)) : Merge :=
  fold_left mergeOne (mergeOrder settled) (mkMerge [] [] 0).

(** The documentation snippets: up to five per library, until a call
    fails. *)
Fixpoint gatherDocs (libs : list string) (docsSnippets : list Context7Snippet)
  : list Context7Snippet :=
  match libs with
  | [] => docsSnippets
  | lib :: rest =>
      match getContext7Docs oracle lib with
      | Some found => gatherDocs rest (docsSnippets ++ firstn 5 found)
      | None => docsSnippets
      end
  end.

(** [issue.docs = (issue.docs ?? []).concat(docsSnippets.slice(0, 3).map(...))]. *)
Definition attachDocs (docsSnippets : list Context7Snippet) (issues : list Issue)
  : list Issue :=
  match docsSnippets with
  | [] => issues
  | _ =>
      map (fun issue =>
             mkIssue (id issue) (type issue) (severity issue) (title issue)
                     (description issue) (file issue) (line issue) (codeFrame issue)
                     (recommendation issue) (codemod issue)
                     (Some (match docs issue with Some d => d | None => [] end
                            ++ map (fun d => mkDocRef (snippetTitle d) (snippetUrl d))
                                   (firstn 3 docsSnippets)))
                     (evidence issue))
          issues
  end.

(** [issues[idx].codemod = cm] at the first issue with that title. *)
Fixpoint setCodemodAt (issueTitle : string) (cm : Codemod) (issues : list Issue)
  : list Issue :=
  match issues with
  | [] => []
  | issue :: rest =>
      if String.eqb (title issue) issueTitle then
        mkIssue (id issue) (type issue) (severity issue) (title issue)
                (description issue) (file issue) (line issue) (codeFrame issue)
                (recommendation issue) (Some cm) (docs issue) (evidence issue)
        :: rest
      else issue :: setCodemodAt issueTitle cm rest
  end.

Definition applyCodemod (issues : list Issue) (cm : RawItem) : list Issue :=
  match Js.truthy (issueTitle cm), itemCodemod cm with
  | Some t, Some c => setCodemodAt t c issues
  | _, _ => issues
  end.

Definition warningsIssue (suffix : string) (warnings : list string) : Issue :=
  mkIssue ("general-" ++ suffix)%string general low
          "Agent response warnings"
          (Js.join "; " warnings)
          None None None
          (Some "Review model outputs or rerun the audit after the provider stabilises.")
          None None None.

End WithRuntime.

(** ** runFullAudit *)

Section WithRuntime.

Variable rt : Runtime.
Variable oracle : Oracle.
Variable input : Input.t.

Definition targetProvider : AIProviderName :=
  match Input.provider input with
  | Some p => p
  | None => vercel
  end.

Definition heuristicsOf : list Heuristics.RuleHit :=
  Heuristics.runHeuristics (regexTest rt) (Input.files input).

Definition samplingLimit : nat :=
  if length (Input.files input) <=? 900 then length (Input.files input) else 900.

Definition sampledFiles : list Sampling.FileWithPriority :=
  Sampling.intelligentSampling (isMatch rt) (Input.files input) heuristicsOf samplingLimit.

Definition chunks : list CodeGraph.CodeChunk :=
  CodeGraph.buildCodeGraph (descendants rt) (getSourceFiles rt) (regexTest rt)
    (map Sampling.fileOf sampledFiles).

Definition sampleTexts : list string :=
  map (fun c =>
         ("// " ++ CodeGraph.file c ++ ":" ++ Js.natToString (CodeGraph.startLine c)
            ++ "-" ++ Js.natToString (CodeGraph.endLine c) ++ String Js.LF ""
            ++ CodeGraph.text c)%string)
      chunks.

Definition summary : string :=
  ("Files: " ++ Js.natToString (length (Input.files input))
     ++ ", Chunks:" ++ Js.natToString (length chunks)
     ++ ", Heuristics:" ++ Js.natToString (length heuristicsOf))%string.

(** The argument each analyzer is called with. *)
Definition contextOf (a : Agent) : AgentContext :=
  match a with
  | UIUX | Backend | Performance => CodeSamples summary sampleTexts
  | Database =>
      Schema summary (match Input.prismaSchema input with Some s => s | None => "" end)
  | Security =>
      RuleHitList summary
        (map (fun h =>
                (Heuristics.rule h ++ " " ++ Heuristics.file h ++ ":"
                   ++ Js.natToString (Heuristics.line h))%string)
             heuristicsOf)
  | Lint => FileList (map (fun c => (CodeGraph.file c, CodeGraph.text c)) chunks)
  end.

Definition docsSnippets : list Context7Snippet :=
  gatherDocs oracle
    [ "Next.js"; "Vercel AI SDK";
      match targetProvider with
      | openrouter => "OpenRouter API"
      | vercel => "OpenAI Apps SDK"
      end ]
    [].

(** The issues handed to the planner: the merged findings with the
    documentation attached. *)
Definition issuesForPlanner (settled : list (Agent * JsValue)) : list Issue :=
  attachDocs docsSnippets (mergedIssues (mergeFindings rt oracle settled)).

Definition statsOf : list (string * nat) :=
  [ ("files", length (Input.files input));
    ("chunks", length chunks);
    ("heuristics", length heuristicsOf);
    ("agents", 6);
    ("sampledFiles", length sampledFiles) ].

(** From the planner's answer to the returned report: the issues with
    the codemods applied and the warnings issue appended, the warnings,
    and the report built from them. *)
Definition finalWarnings (settled : list (Agent * JsValue)) (codemodsJson : JsValue)
  : list string :=
  snd (normalizeAgentOutput (parseJson rt) "codemod" codemodsJson
         (mergedWarnings (mergeFindings rt oracle settled))).

Definition finalIssues (settled : list (Agent * JsValue)) (codemodsJson : JsValue)
  : list Issue :=
  let merged := mergeFindings rt oracle settled in
  let codemods :=
    fst (normalizeAgentOutput (parseJson rt) "codemod" codemodsJson
           (mergedWarnings merged)) in
  let issues := fold_left applyCodemod codemods (issuesForPlanner settled) in
  match finalWarnings settled codemodsJson with
  | [] => issues
  | warnings => issues ++ [warningsIssue (randomSuffix oracle (drawn merged)) warnings]
  end.

Definition reportOf (settled : list (Agent * JsValue)) (codemodsJson : JsValue)
  : ScanResult :=
  let result :=
    mkScanResult (Input.repo input) (startedAtIso oracle) (finishedAtIso oracle)
      statsOf (finalIssues settled codemodsJson) None targetProvider
      (Provider.getDefaultModelForProvider (defaults rt) targetProvider)
      (match targetProvider with
       | openrouter => Provider.getOpenRouterProvider (defaults rt)
       | vercel => None
       end)
      "" (Some (finalWarnings settled codemodsJson)) in
  mkScanResult (repoOf result) (startedAt result) (finishedAt result) (stats result)
    (Types.issues result) (embeddings result) (provider result) (model result)
    (openrouterProvider result)
    (Report.buildMarkdownReport (toLocaleString rt) result)
    (Types.warnings result).

Definition finish (settled : list (Agent * JsValue)) (codemodsJson : JsValue)
  : M ScanResult :=
  let issues := finalIssues settled codemodsJson in
  stage input Streaming.synthesizing
    (Streaming.calculateProgress Streaming.synthesizing 100)
    ("Found " ++ Js.natToString (length issues) ++ " issues")%string
    (Some (Streaming.mkDetails None None None (Some (length issues)) None None None)) ;;;
  let result := reportOf settled codemodsJson in
  complete input "Audit complete!"
    (Some (Streaming.mkPartialResults (Some (firstn 10 issues)) (Some (stats result)))) ;;;
  ret result.

(** The body of the [try] block. *)
Definition auditBody : M ScanResult :=
  stage input Streaming.initializing 5 "Starting audit..."
    (Some (Streaming.mkDetails None (Some (length (Input.files input)))
                               None None None None None)) ;;;
  stage input Streaming.heuristics
    (Streaming.calculateProgress Streaming.heuristics 0)
    "Running security heuristics..." None ;;;
  stage input Streaming.heuristics
    (Streaming.calculateProgress Streaming.heuristics 100)
    ("Found " ++ Js.natToString (length heuristicsOf) ++ " heuristic matches")%string
    None ;;;
  stage input Streaming.sampling
    (Streaming.calculateProgress Streaming.sampling 0)
    "Selecting high-priority files..." None ;;;
  stage input Streaming.sampling
    (Streaming.calculateProgress Streaming.sampling 100)
    ("Selected " ++ Js.natToString (length sampledFiles) ++ " files for analysis")%string
    None ;;;
  stage input Streaming.parsing
    (Streaming.calculateProgress Streaming.parsing 0)
    "Parsing code with ts-morph..." None ;;;
  stage input Streaming.parsing
    (Streaming.calculateProgress Streaming.parsing 100)
    ("Created " ++ Js.natToString (length chunks) ++ " code chunks")%string
    (Some (Streaming.mkDetails None None (Some (length chunks)) None None None None)) ;;;
  stage input Streaming.analyzing
    (Streaming.calculateProgress Streaming.analyzing 0)
    "Running AI agents in parallel..."
    (Some (analyzingDetails 0 None)) ;;;
  settled <- awaitAll rt input (fun a => analyze oracle a (contextOf a))
                      (settleOrder oracle) 0 [] ;;
  stage input Streaming.synthesizing
    (Streaming.calculateProgress Streaming.synthesizing 0)
    "Processing agent results..." None ;;;
  record (PlannerCalled (issuesForPlanner settled)) ;;;
  match codemodAgentPlan oracle (issuesForPlanner settled) with
  | Rejected err => throw err
  | Resolved codemodsJson => finish settled codemodsJson
  end.

Definition runFullAudit : M ScanResult :=
  prevProvider <- getAIProvider ;;
  setAIProvider targetProvider ;;;
  tryFinally auditBody (setAIProvider prevProvider).

End WithRuntime.

(** ** What a run does to the world

    Apart from the two writes of [activeProvider] in [runFullAudit], an
    action only appends events: [runs m r evs] says that [m] ends with [r]
    after appending [evs], whatever the world it starts in. *)

Definition runs {A : Type} (m : M A) (r : Result A) (evs : list Event) : Prop :=
  forall w, m w = (r, mkWorld (activeProvider w) (log w ++ evs)).

Lemma runs_ret {A : Type} (a : A) : runs (ret a) (Returned a) [].
Proof. intros [p l]. unfold ret. simpl. rewrite app_nil_r. reflexivity. Qed.

Lemma runs_throw {A : Type} (e : JsError) : runs (@throw A e) (Thrown e) [].
Proof. intros [p l]. unfold throw. simpl. rewrite app_nil_r. reflexivity. Qed.

Lemma runs_record (e : Event) : runs (record e) (Returned tt) [e].
Proof. intros w. reflexivity. Qed.

Lemma runs_bind {A B : Type} (m : M A) (k : A -> M B) (a : A) (r : Result B)
  (evs1 evs2 : list Event) :
  runs m (Returned a) evs1 -> runs (k a) r evs2 -> runs (bind m k) r (evs1 ++ evs2).
Proof.
  intros Hm Hk w. unfold bind. rewrite Hm, Hk. simpl. rewrite app_assoc. reflexivity.
Qed.

Lemma runs_bind_thrown {A B : Type} (m : M A) (k : A -> M B) (e : JsError)
  (evs : list Event) :
  runs m (Thrown e) evs -> runs (bind m k) (Thrown e) evs.
Proof. intros Hm w. unfold bind. rewrite Hm. reflexivity. Qed.

(** The updates a [progress?.stage] call emits: one when a stream was
    passed, none otherwise. *)
Definition emitted (input : Input.t) (u : Streaming.ProgressUpdate) : list Event :=
  if Input.progressStream input then [Emitted u] else [].

Lemma runs_stage (input : Input.t) (s : Streaming.ProgressStage) (p : Q) (msg : string)
  (d : option Streaming.Details) :
  runs (stage input s p msg d) (Returned tt) (emitted input (Streaming.stageUpdate s p msg d)).
Proof.
  unfold stage, emitted. destruct (Input.progressStream input);
    [apply runs_record | apply runs_ret].
Qed.

Lemma runs_complete (input : Input.t) (msg : string)
  (partial : option Streaming.PartialResults) :
  runs (complete input msg partial) (Returned tt)
       (emitted input (Streaming.completeUpdate msg partial)).
Proof.
  unfold complete, emitted. destruct (Input.progressStream input);
    [apply runs_record | apply runs_ret].
Qed.

Definition isPlannerCall (e : Event) : bool :=
  match e with PlannerCalled _ => true | _ => false end.

Definition isSettle (e : Event) : bool :=
  match e with AnalyzerSettled _ _ => true | _ => false end.

Definition isEmitted (e : Event) : bool :=
  match e with Emitted _ => true | _ => false end.

Lemma emitted_only (input : Input.t) (u : Streaming.ProgressUpdate) :
  forallb isEmitted (emitted input u) = true.
Proof. unfold emitted. destruct (Input.progressStream input); reflexivity. Qed.

Lemma emitted_no_planner (l : list Event) :
  forallb isEmitted l = true -> forallb (fun e => negb (isPlannerCall e)) l = true.
Proof.
  induction l as [|e l IH]; simpl; [reflexivity|].
  intros H. apply andb_true_iff in H. destruct H as [He Hl].
  rewrite (IH Hl). destruct e; try discriminate He; reflexivity.
Qed.

Lemma emitted_no_settle (l : list Event) :
  forallb isEmitted l = true -> forallb (fun e => negb (isSettle e)) l = true.
Proof.
  induction l as [|e l IH]; simpl; [reflexivity|].
  intros H. apply andb_true_iff in H. destruct H as [He Hl].
  rewrite (IH Hl). destruct e; try discriminate He; reflexivity.
Qed.

(** The value [agentWrapper] fulfils with, if it does. *)
Definition wrapperValue (rt : Runtime) (outcome : Outcome) : option JsValue :=
  match outcome with
  | Resolved result => Some result
  | Rejected err =>
      match recoverableText err with
      | Some text =>
          match parseJson rt (unwrapMarkdown text) with
          | inr parsed => Some parsed
          | inl _ => None
          end
      | None => None
      end
  end.

Definition fulfilledValue (rt : Runtime) (outcome : Outcome) : JsValue :=
  match wrapperValue rt outcome with
  | Some v => v
  | None => JOther "undefined"
  end.

Section RunFacts.

Variable rt : Runtime.
Variable oracle : Oracle.
Variable input : Input.t.

Lemma agentWrapper_runs (a : Agent) (outcome : Outcome) (completedAgents : nat) :
  exists r evs,
    runs (agentWrapper rt input a outcome completedAgents) r evs /\
    forallb (fun e => negb (isPlannerCall e)) evs = true /\
    match r with
    | Returned p =>
        wrapperValue rt outcome = Some (fst p) /\ In (AnalyzerSettled a true) evs
    | Thrown e =>
        outcome = Rejected e /\ wrapperValue rt outcome = None /\
        In (AnalyzerSettled a false) evs
    end.
Proof.
  destruct outcome as [result | err]; simpl.
  - eexists. eexists. split; [|split].
    + eapply runs_bind; [apply runs_stage|].
      eapply runs_bind; [apply runs_record | apply runs_ret].
    + rewrite forallb_app, (emitted_no_planner _ (emitted_only _ _)). reflexivity.
    + simpl. split; [reflexivity|]. apply in_or_app. right. left. reflexivity.
  - destruct (recoverableText err) as [text|].
    + destruct (parseJson rt (unwrapMarkdown text)) as [msg | parsed].
      * eexists. eexists. split; [|split].
        -- eapply runs_bind; [apply runs_record | apply runs_throw].
        -- reflexivity.
        -- simpl. auto.
      * eexists. eexists. split; [|split].
        -- eapply runs_bind; [apply runs_record | apply runs_ret].
        -- reflexivity.
        -- simpl. auto.
    + eexists. eexists. split; [|split].
      * eapply runs_bind; [apply runs_record | apply runs_throw].
      * reflexivity.
      * simpl. auto.
Qed.

Lemma awaitAll_runs (outcomeOf : Agent -> Outcome) (order : list Agent)
  (completedAgents : nat) (settled : list (Agent * JsValue)) :
  exists r evs,
    runs (awaitAll rt input outcomeOf order completedAgents settled) r evs /\
    forallb (fun e => negb (isPlannerCall e)) evs = true /\
    match r with
    | Returned settled' =>
        settled' = settled ++ map (fun a => (a, fulfilledValue rt (outcomeOf a))) order /\
        (forall a, In a order -> wrapperValue rt (outcomeOf a) <> None) /\
        (forall a, In a order -> In (AnalyzerSettled a true) evs)
    | Thrown e =>
        exists a, In a order /\ outcomeOf a = Rejected e /\
                  wrapperValue rt (outcomeOf a) = None /\
                  In (AnalyzerSettled a false) evs
    end.
Proof.
  revert completedAgents settled.
  induction order as [|a rest IH]; intros completedAgents settled.
  - exists (Returned settled), []. split; [apply runs_ret | split; [reflexivity|]].
    simpl. rewrite app_nil_r. repeat split; intros b [].
  - destruct (agentWrapper_runs a (outcomeOf a) completedAgents)
      as [r1 [evs1 [Hruns1 [Hno1 Hr1]]]].
    destruct r1 as [p | e].
    + destruct Hr1 as [Hval Hsettle].
      destruct (IH (snd p) (settled ++ [(a, fst p)])) as [r2 [evs2 [Hruns2 [Hno2 Hr2]]]].
      exists r2, (evs1 ++ evs2). split; [|split].
      * simpl. eapply runs_bind; [exact Hruns1 | exact Hruns2].
      * rewrite forallb_app, Hno1, Hno2. reflexivity.
      * destruct r2 as [settled' | e].
        -- destruct Hr2 as [Heq [Hall Hsettled]]. split; [|split].
           ++ rewrite Heq, <- app_assoc. simpl. unfold fulfilledValue at 2.
              rewrite Hval. reflexivity.
           ++ intros b [<- | Hb]; [rewrite Hval; discriminate | apply Hall, Hb].
           ++ intros b [<- | Hb]; apply in_or_app; [left; exact Hsettle | right; auto].
        -- destruct Hr2 as [b [Hb [Hrej [Hnone Hsettled]]]].
           exists b. repeat split; try assumption; [right; exact Hb|].
           apply in_or_app. right. exact Hsettled.
    + destruct Hr1 as [Hrej [Hnone Hsettle]].
      exists (Thrown e), evs1. split; [|split].
      * simpl. apply runs_bind_thrown. exact Hruns1.
      * exact Hno1.
      * exists a. repeat split; try assumption. left. reflexivity.
Qed.


(** Every analyzer is in the settle order. *)
Lemma finishTimes_agents (concurrency : nat) (queue : list (Agent * nat))
  (running : list nat) :
  map fst (finishTimes concurrency queue running) = map fst queue.
Proof.
  revert running. induction queue as [|[a d] rest IH]; intros running; simpl;
    [reflexivity|].
  destruct (length running <? concurrency); simpl; rewrite IH; reflexivity.
Qed.

Lemma settleOrder_complete (a : Agent) : In a (settleOrder oracle).
Proof.
  unfold settleOrder.
  eapply Permutation_in.
  - apply Permutation_sym, Permutation_map, Js.sortBy_perm.
  - rewrite finishTimes_agents, map_map. simpl. destruct a; tauto.
Qed.

(** The values of the six analyzers once all have fulfilled. *)
Definition settledAll : list (Agent * JsValue) :=
  map (fun a => (a, fulfilledValue rt (analyze oracle a (contextOf rt input a))))
      (settleOrder oracle).

(** The updates emitted before the analyzers start. *)
Definition stagePrefix : list Event :=
  emitted input
    (Streaming.stageUpdate Streaming.initializing 5 "Starting audit..."
       (Some (Streaming.mkDetails None (Some (length (Input.files input)))
                                  None None None None None)))
  ++ emitted input
       (Streaming.stageUpdate Streaming.heuristics
          (Streaming.calculateProgress Streaming.heuristics 0)
          "Running security heuristics..." None)
  ++ emitted input
       (Streaming.stageUpdate Streaming.heuristics
          (Streaming.calculateProgress Streaming.heuristics 100)
          ("Found " ++ Js.natToString (length (heuristicsOf rt input))
             ++ " heuristic matches")%string None)
  ++ emitted input
       (Streaming.stageUpdate Streaming.sampling
          (Streaming.calculateProgress Streaming.sampling 0)
          "Selecting high-priority files..." None)
  ++ emitted input
       (Streaming.stageUpdate Streaming.sampling
          (Streaming.calculateProgress Streaming.sampling 100)
          ("Selected " ++ Js.natToString (length (sampledFiles rt input))
             ++ " files for analysis")%string None)
  ++ emitted input
       (Streaming.stageUpdate Streaming.parsing
          (Streaming.calculateProgress Streaming.parsing 0)
          "Parsing code with ts-morph..." None)
  ++ emitted input
       (Streaming.stageUpdate Streaming.parsing
          (Streaming.calculateProgress Streaming.parsing 100)
          ("Created " ++ Js.natToString (length (chunks rt input)) ++ " code chunks")%string
          (Some (Streaming.mkDetails None None (Some (length (chunks rt input)))
                                     None None None None)))
  ++ emitted input
       (Streaming.stageUpdate Streaming.analyzing
          (Streaming.calculateProgress Streaming.analyzing 0)
          "Running AI agents in parallel..." (Some (analyzingDetails 0 None))).

Lemma stagePrefix_emitted : forallb isEmitted stagePrefix = true.
Proof. unfold stagePrefix. rewrite !forallb_app, !emitted_only. reflexivity. Qed.

(** How a run ends and what it appends: the stage updates, the events of
    the analyzers, and then either nothing more (an analyzer rejected and
    was not recovered) or the planner call on the merged issues followed by
    updates only. *)
Definition auditShape (r : Result ScanResult) (evs : list Event) : Prop :=
  exists analyzerEvents rest,
    evs = stagePrefix ++ analyzerEvents ++ rest /\
    forallb (fun e => negb (isPlannerCall e)) analyzerEvents = true /\
    ((rest = [] /\
      exists a e,
        r = Thrown e /\
        analyze oracle a (contextOf rt input a) = Rejected e /\
        wrapperValue rt (Rejected e) = None /\
        In (AnalyzerSettled a false) analyzerEvents)
     \/
     ((forall a, In (AnalyzerSettled a true) analyzerEvents) /\
      (forall a, wrapperValue rt (analyze oracle a (contextOf rt input a)) <> None) /\
      exists synthesizing post,
        rest = synthesizing
               ++ PlannerCalled (issuesForPlanner rt oracle input settledAll) :: post /\
        forallb isEmitted synthesizing = true /\
        forallb isEmitted post = true /\
        match codemodAgentPlan oracle (issuesForPlanner rt oracle input settledAll) with
        | Rejected err => r = Thrown err
        | Resolved codemodsJson =>
            r = Returned (reportOf rt oracle input settledAll codemodsJson)
        end)).

Lemma finish_runs (settled : list (Agent * JsValue)) (codemodsJson : JsValue) :
  exists evs,
    runs (finish rt oracle input settled codemodsJson)
         (Returned (reportOf rt oracle input settled codemodsJson)) evs /\
    forallb isEmitted evs = true.
Proof.
  eexists. split.
  - unfold finish. cbv zeta.
    eapply runs_bind; [apply runs_stage|].
    eapply runs_bind; [apply runs_complete | apply runs_ret].
  - rewrite !forallb_app, !emitted_only. reflexivity.
Qed.

Lemma auditBody_runs :
  exists r evs, runs (auditBody rt oracle input) r evs /\ auditShape r evs.
Proof.
  destruct (awaitAll_runs (fun a => analyze oracle a (contextOf rt input a))
              (settleOrder oracle) 0 [])
    as [r1 [evs1 [Hruns1 [Hno1 Hr1]]]].
  destruct r1 as [settled | e].
  - destruct Hr1 as [Heq [Hall Hsettled]]. simpl in Heq. fold settledAll in Heq. subst settled.
    destruct (codemodAgentPlan oracle (issuesForPlanner rt oracle input settledAll))
      as [codemodsJson | err] eqn:Hplan.
    + destruct (finish_runs settledAll codemodsJson) as [evsF [HrunsF HemF]].
      eexists. eexists. split.
      * unfold auditBody.
        do 8 (eapply runs_bind; [apply runs_stage|]).
        eapply runs_bind; [exact Hruns1|].
        eapply runs_bind; [apply runs_stage|].
        eapply runs_bind; [apply runs_record|].
        rewrite Hplan. exact HrunsF.
      * exists evs1. eexists. split; [|split; [exact Hno1|]].
        -- unfold stagePrefix. rewrite <- !app_assoc. reflexivity.
        -- right. split; [|split].
           ++ intros a. apply Hsettled, settleOrder_complete.
           ++ intros a. apply Hall, settleOrder_complete.
           ++ eexists. exists evsF. split; [reflexivity|].
              split; [apply emitted_only | split; [exact HemF|]].
              rewrite Hplan. reflexivity.
    + eexists. eexists. split.
      * unfold auditBody.
        do 8 (eapply runs_bind; [apply runs_stage|]).
        eapply runs_bind; [exact Hruns1|].
        eapply runs_bind; [apply runs_stage|].
        eapply runs_bind; [apply runs_record|].
        rewrite Hplan. apply runs_throw.
      * exists evs1. eexists. split; [|split; [exact Hno1|]].
        -- unfold stagePrefix. rewrite <- !app_assoc. reflexivity.
        -- right. split; [|split].
           ++ intros a. apply Hsettled, settleOrder_complete.
           ++ intros a. apply Hall, settleOrder_complete.
           ++ eexists. exists []. split; [reflexivity|].
              split; [apply emitted_only | split; [reflexivity|]].
              rewrite Hplan. reflexivity.
  - destruct Hr1 as [a [_ [Hrej [Hnone Hsettled]]]].
    eexists. eexists. split.
    + unfold auditBody.
      do 8 (eapply runs_bind; [apply runs_stage|]).
      apply runs_bind_thrown. exact Hruns1.
    + exists evs1, []. split; [|split; [exact Hno1|]].
      * unfold stagePrefix. rewrite <- !app_assoc, app_nil_r. reflexivity.
      * left. split; [reflexivity|]. exists a, e.
        rewrite Hrej in Hnone. auto.
Qed.

(** The whole function: the provider is saved, switched, and put back by
    the [finally] block; in between runs the body. *)
Lemma runFullAudit_runs :
  exists r evs, runs (runFullAudit rt oracle input) r evs /\ auditShape r evs.
Proof.
  destruct auditBody_runs as [r [evs [Hruns Hshape]]].
  exists r, evs. split; [|exact Hshape].
  intros w. unfold runFullAudit, bind, getAIProvider, setAIProvider, tryFinally.
  rewrite Hruns. reflexivity.
Qed.

End RunFacts.

(** ** Examples of runs *)

Definition sampleRuntime : Runtime :=
  mkRuntime Sampling.globMatch (fun _ _ => false) (fun _ _ => []) (fun project => project)
            sampleParse (fun iso => iso)
            (Provider.mkDefaults "moonshotai/kimi-k2-0905" "z-ai/glm-4.6" None).

(** Two small text files without declarations, and a progress stream. *)
Definition sampleInput : Input.t :=
  Input.mk (mkRepoRef "acme" "shop" None)
    [ mkRepoFile "app/page.tsx" (Some "export {}") false;
      mkRepoFile "lib/util.ts" (Some "// nothing yet") false ]
    None None true.

Definition xssItem : RawItem :=
  mkRawItem (Some "high") (Some "Unsanitized HTML") (Some "User input reaches the DOM.")
            None None None None.

(** Every model call succeeds; the security analyzer reports one issue. *)
Definition sampleOracle : Oracle :=
  mkOracle
    (fun a _ => match a with
                | Security => Resolved (JArray [xssItem])
                | _ => Resolved (JArray [])
                end)
    (fun a => match a with UIUX => 5 | Backend => 1 | _ => 2 end)
    (fun _ => Resolved (JArray []))
    (fun _ => Some [])
    (fun n => ("k3x9q" ++ Js.natToString n)%string)
    "2025-01-01T00:00:00.000Z" "2025-01-01T00:01:00.000Z".

Definition rateLimited : JsError :=
  mkJsError "429 Too Many Requests" None None.

(** The same, but the security analyzer always raises, without any text
    to recover. *)
Definition failingOracle : Oracle :=
  mkOracle
    (fun a _ => match a with
                | Security => Rejected rateLimited
                | _ => Resolved (JArray [])
                end)
    (duration sampleOracle) (codemodAgentPlan sampleOracle)
    (getContext7Docs sampleOracle) (randomSuffix sampleOracle)
    (startedAtIso sampleOracle) (finishedAtIso sampleOracle).

Definition idle : World := mkWorld openrouter [].

Definition progressValues (evs : list Event) : list Q :=
  flat_map (fun e => match e with
                     | Emitted u => [Streaming.progress u]
                     | _ => []
                     end) evs.

(** ** The claims about runFullAudit *)

Lemma planner_split_unique (l1 l2 pre post : list Event) (x y : list Issue) :
  l1 ++ PlannerCalled x :: l2 = pre ++ PlannerCalled y :: post ->
  forallb (fun e => negb (isPlannerCall e)) l1 = true ->
  forallb (fun e => negb (isPlannerCall e)) l2 = true ->
  pre = l1 /\ y = x /\ post = l2.
Proof.
  revert pre. induction l1 as [|e l1 IH]; intros pre Heq H1 H2.
  - destruct pre as [|e' pre]; simpl in Heq.
    + injection Heq as Hx Hl. subst. auto.
    + injection Heq as He Hl. subst.
      rewrite forallb_app in H2. simpl in H2.
      rewrite andb_false_r in H2. discriminate.
  - simpl in H1. apply andb_true_iff in H1. destruct H1 as [He H1].
    destruct pre as [|e' pre]; simpl in Heq.
    + injection Heq as He' _. subst. discriminate He.
    + injection Heq as He' Hl. subst.
      destruct (IH pre Hl H1 H2) as [-> [-> ->]]. auto.
Qed.

Lemma no_planner_not_in (l : list Event) (x : list Issue) :
  forallb (fun e => negb (isPlannerCall e)) l = true -> ~ In (PlannerCalled x) l.
Proof.
  intros H Hin. rewrite forallb_forall in H. specialize (H _ Hin). discriminate.
Qed.

(** C10.  Whatever [runFullAudit] is given and however it ends (with a
    report or with a thrown error), the process-wide provider selection
    after the call is the one before it: it is read first, switched, and
    put back by the [finally] block; the run otherwise only appends events. *)
Theorem provider_selection_restored
  (rt : Runtime) (oracle : Oracle) (input : Input.t) (w : World) :
  activeProvider (snd (runFullAudit rt oracle input w)) = activeProvider w /\
  exists evs, log (snd (runFullAudit rt oracle input w)) = log w ++ evs.
Proof.
  destruct (runFullAudit_runs rt oracle input) as [r [evs [Hruns _]]].
  split; [| exists evs]; rewrite (Hruns w); reflexivity.
Qed.

(** C7.  In every run, if the remediation planner is called, then all six
    analyzers have settled, fulfilled, before the call, none settles after
    it, and its argument is the list of issues merged from the six
    normalized outputs (with the documentation references attached). *)
Theorem planner_runs_after_all_analyzers
  (rt : Runtime) (oracle : Oracle) (input : Input.t) (w : World)
  (pre post : list Event) (issues : list Issue) :
  log (snd (runFullAudit rt oracle input w)) = log w ++ pre ++ PlannerCalled issues :: post ->
  (forall a, In (AnalyzerSettled a true) pre) /\
  (forall e, In e post -> isSettle e = false) /\
  (forall a, wrapperValue rt (analyze oracle a (contextOf rt input a)) <> None) /\
  issues = attachDocs (docsSnippets oracle input)
             (mergedIssues (mergeFindings rt oracle (settledAll rt oracle input))).
Proof.
  destruct (runFullAudit_runs rt oracle input) as [r [evs [Hruns Hshape]]].
  rewrite (Hruns w). simpl. intros Hlog. apply app_inv_head in Hlog.
  destruct Hshape as [analyzerEvents [rest [Hevs [Hno Hcases]]]].
  pose proof (emitted_no_planner _ (stagePrefix_emitted rt input)) as Hprefix.
  destruct Hcases as [[-> _] | [Hsettled [Hall [syn [post0 [-> [Hsyn [Hpost Hplan]]]]]]]].
  - exfalso. rewrite app_nil_r in Hevs.
    apply (no_planner_not_in evs issues).
    + rewrite Hevs, forallb_app, Hprefix, Hno. reflexivity.
    + rewrite Hlog. apply in_or_app. right. left. reflexivity.
  - assert (Hsplit :
      (stagePrefix rt input ++ analyzerEvents ++ syn)
      ++ PlannerCalled (issuesForPlanner rt oracle input (settledAll rt oracle input))
         :: post0
      = pre ++ PlannerCalled issues :: post)
      by (rewrite <- Hlog, Hevs, <- !app_assoc; reflexivity).
    apply planner_split_unique in Hsplit.
    + destruct Hsplit as [-> [-> ->]]. repeat split.
      * intros a. apply in_or_app. right. apply in_or_app. left. apply Hsettled.
      * intros e He. pose proof (emitted_no_settle _ Hpost) as Hns.
        rewrite forallb_forall in Hns. specialize (Hns e He).
        destruct (isSettle e); [discriminate | reflexivity].
      * exact Hall.
    + rewrite !forallb_app, Hprefix, Hno, (emitted_no_planner _ Hsyn). reflexivity.
    + apply emitted_no_planner, Hpost.
Qed.

Definition sampleLog : list Event :=
  log (snd (runFullAudit sampleRuntime sampleOracle sampleInput idle)).

Lemma planner_runs_after_all_analyzers_witness :
  (forall a, In (AnalyzerSettled a true) (firstn 21 sampleLog)) /\
  (forall e, In e (skipn 22 sampleLog) -> isSettle e = false) /\
  (forall a, wrapperValue sampleRuntime
               (analyze sampleOracle a (contextOf sampleRuntime sampleInput a)) <> None) /\
  [ mkIssue "security-k3x9q0" security high "Unsanitized HTML" "User input reaches the DOM."
            None None None None None None None ]
  = attachDocs (docsSnippets sampleOracle sampleInput)
      (mergedIssues (mergeFindings sampleRuntime sampleOracle
                       (settledAll sampleRuntime sampleOracle sampleInput))).
Proof.
  apply (planner_runs_after_all_analyzers sampleRuntime sampleOracle sampleInput idle).
  vm_compute. reflexivity.
Defined.

Lemma agent_eq_dec (a b : Agent) : {a = b} + {a <> b}.
Proof. decide equality. Qed.

(** C2, as the specification states it, fails: when the security analyzer
    raises an error that carries no text and the five others succeed, the
    run throws that error; no report, hence no result of the other five, no
    warning and no stats, is returned. *)
Lemma one_failing_analyzer_aborts_the_batch :
  recoverableText rateLimited = None /\
  (forall a ctx, a <> Security -> analyze failingOracle a ctx = Resolved (JArray [])) /\
  analyze failingOracle Security (contextOf sampleRuntime sampleInput Security)
    = Rejected rateLimited /\
  fst (runFullAudit sampleRuntime failingOracle sampleInput idle) = Thrown rateLimited /\
  ~ (exists result,
       fst (runFullAudit sampleRuntime failingOracle sampleInput idle) = Returned result /\
       In ("agents", 6) (stats result)).
Proof.
  split; [reflexivity | split; [|split; [reflexivity | split]]].
  - intros a ctx Ha. destruct a; try reflexivity. contradiction.
  - vm_compute. reflexivity.
  - intros [result [H _]]. vm_compute in H. discriminate H.
Qed.

(** C2, amended.  A failure of one analyzer is contained only when its
    error carries model text that parses once the markdown fence is
    removed.  If an analyzer raises an error from which nothing is
    recovered while the five others resolve, [runFullAudit] throws that
    very error: the planner is never called and no report is returned.
    Conversely every report that is returned comes from six analyzers that
    fulfilled or were recovered, and its stats say [agents = 6]. *)
Theorem unrecovered_failure_aborts_the_run
  (rt : Runtime) (oracle : Oracle) (input : Input.t) :
  (forall w result w',
     runFullAudit rt oracle input w = (Returned result, w') ->
     In ("agents", 6) (stats result) /\
     forall a, wrapperValue rt (analyze oracle a (contextOf rt input a)) <> None) /\
  (forall a err,
     analyze oracle a (contextOf rt input a) = Rejected err ->
     wrapperValue rt (Rejected err) = None ->
     (forall b, b <> a -> exists v, analyze oracle b (contextOf rt input b) = Resolved v) ->
     forall w, exists evs,
       runFullAudit rt oracle input w =
         (Thrown err, mkWorld (activeProvider w) (log w ++ evs)) /\
       In (AnalyzerSettled a false) evs /\
       forall issues, ~ In (PlannerCalled issues) evs).
Proof.
  destruct (runFullAudit_runs rt oracle input)
    as [r [evs [Hruns [analyzerEvents [rest [Hevs [Hno Hcases]]]]]]].
  pose proof (emitted_no_planner _ (stagePrefix_emitted rt input)) as Hprefix.
  split.
  - intros w result w' Hrun. rewrite (Hruns w) in Hrun. injection Hrun as Hr _.
    destruct Hcases as [[_ [a [e [Hthrown _]]]] | [_ [Hall [syn [post [_ [_ [_ Hplan]]]]]]]].
    + congruence.
    + split; [|exact Hall].
      destruct (codemodAgentPlan oracle _) as [codemodsJson | err]; [|congruence].
      rewrite Hr in Hplan. injection Hplan as ->. simpl. auto.
  - intros a err Hrej Hnone Hothers w.
    destruct Hcases as [[-> [a' [e [-> [Hrej' [_ Hsettled]]]]]] | [_ [Hall _]]].
    + assert (Ha : a' = a).
      { destruct (agent_eq_dec a' a) as [E | E]; [exact E|].
        destruct (Hothers a' E) as [v Hv]. congruence. }
      subst a'. assert (e = err) by congruence. subst e.
      exists evs. split; [apply Hruns | split].
      * rewrite Hevs. apply in_or_app. right. apply in_or_app. left. exact Hsettled.
      * intros issues. apply no_planner_not_in.
        rewrite Hevs, !forallb_app, Hprefix, Hno. reflexivity.
    + exfalso. apply (Hall a). rewrite Hrej. exact Hnone.
Qed.

Lemma unrecovered_failure_aborts_the_run_witness :
  exists evs,
    runFullAudit sampleRuntime failingOracle sampleInput idle =
      (Thrown rateLimited, mkWorld (activeProvider idle) (log idle ++ evs)) /\
    In (AnalyzerSettled Security false) evs /\
    forall issues, ~ In (PlannerCalled issues) evs.
Proof.
  apply (proj2 (unrecovered_failure_aborts_the_run sampleRuntime failingOracle sampleInput)
               Security rateLimited).
  - reflexivity.
  - reflexivity.
  - intros b Hb. exists (JArray []). destruct b; try reflexivity. contradiction.
Defined.

(** C4 fails on the code, for every run that is given a progress stream:
    the coordinator runs the heuristics stage (40 to 45 on the scale of
    [stageWeights]) before the sampling stage (25 to 30), so the progress
    value drops from 45 to 25.  The values emitted by the sample run. *)
Lemma progress_goes_backwards :
  progressValues sampleLog =
  [ 5; 40; 45; 25; 30; 30; 40; 45; 155 # 3; 175 # 3; 65; 215 # 3; 235 # 3; 85;
    85; 95; 100 ]%Q /\
  (25 < 45)%Q.
Proof. split; [vm_compute; reflexivity | reflexivity]. Qed.

(** The same for every input: with a stream, the third update says 45 and
    the fourth 25. *)
Lemma progress_drops_in_every_run
  (rt : Runtime) (oracle : Oracle) (input : Input.t) (w : World) :
  Input.progressStream input = true ->
  exists before u v after,
    log (snd (runFullAudit rt oracle input w)) =
      log w ++ before ++ Emitted u :: Emitted v :: after /\
    Streaming.stage u = Streaming.heuristics /\ Streaming.progress u = 45%Q /\
    Streaming.stage v = Streaming.sampling /\ Streaming.progress v = 25%Q.
Proof.
  intros Hstream.
  destruct (runFullAudit_runs rt oracle input)
    as [r [evs [Hruns [analyzerEvents [rest [Hevs _]]]]]].
  rewrite (Hruns w). simpl. rewrite Hevs.
  unfold stagePrefix, emitted. rewrite Hstream. simpl.
  eexists [_; _]. eexists. eexists. eexists. split; [reflexivity|].
  repeat split.
Qed.

End Coordinator.

(* ================================================================== *)
(** * lib/ai/tools/cache.ts *)
(* ================================================================== *)

Module Cache.

Import Types.
Import ITreeNotations.
Local Open Scope itree_scope.

(** The rows Prisma returns, with the relations the queries include. *)
Record RepoRecord := mkRepoRecord {
  repoId : string;
  repoOwner : string;
  repoName : string;
  repoRef : option string
}.

Record IssueRow := mkIssueRow {
  rowId : string;
  rowType : IssueType;
  rowSeverity : Severity;
  rowTitle : string;
  rowDescription : string;
  rowFile : option string;
  rowLine : option nat;
  rowRecommendation : option string;
  codemodName : option string;
  codemodCommand : option string
}.

Record IssueData := mkIssueData {
  newType : IssueType;
  newSeverity : Severity;
  newTitle : string;
  newDescription : string;
  newFile : option string;
  newLine : option nat;
  newRecommendation : option string;
  newCodemodName : option string;
  newCodemodCommand : option string
}.

(** The data of [prisma.scan.create]; dates are ISO strings, as
    [new Date(iso)] reads them. *)
Record ScanData := mkScanData {
  dataRepoId : string;
  dataCommitSha : string;
  dataStartedAt : string;
  dataFinishedAt : string;
  dataStats : list (string * nat);
  dataProvider : AIProviderName;
  dataModel : string;
  dataIssues : list IssueData
}.

Record ScanRecord := mkScanRecord {
  scanId : string;
  createdAt : Z;
  scanStartedAt : string;
  scanFinishedAt : string;
  scanStats : list (string * nat);
  scanProvider : AIProviderName;
  scanModel : option string;
  scanIssues : list IssueRow;
  scanRepo : RepoRecord
}.

(** The store: each query answers with a row, with nothing, or rejects
    ([inl], the error). *)
Variant storeE : Type -> Type :=
  | RepoFindUnique (owner name : string) : storeE (string + option RepoRecord)
  | ScanFindFirst (repoId commitSha provider model : string) (createdAtGte : Z)
      : storeE (string + option ScanRecord)
  | RepoUpsert (owner name : string) (ref : option string) : storeE (string + RepoRecord)
  | ScanCreate (data : ScanData) : storeE (string + ScanRecord).

(** The clock ([Date.now()], in milliseconds) and the console. *)
Variant hostE : Type -> Type :=
  | DateNow : hostE Z
  | ConsoleLog (text : string) : hostE unit
  | ConsoleError (text err : string) : hostE unit.

Definition cacheE : Type -> Type := storeE +' hostE.

Record CacheOptions := mkCacheOptions {
  maxAge : option Z;
  forceRefresh : option bool
}.

Definition noOptions : CacheOptions := mkCacheOptions None None.

(** [!commitSha]: null, undefined and the empty string. *)
Definition missing (commitSha : option string) : bool :=
  match Js.truthy commitSha with
  | Some _ => false
  | None => true
  end.

(** The ScanResult rebuilt from a row. *)
Definition issueOfRow (row : IssueRow) : Issue :=
  mkIssue (rowId row) (rowType row) (rowSeverity row) (rowTitle row) (rowDescription row)
          (rowFile row) (rowLine row) None (rowRecommendation row)
          (match Js.truthy (codemodName row) with
           | Some n =>
               let command := match codemodCommand row with Some c => c | None => "" end in
               Some (mkCodemod n command command None)
           | None => None
           end)
          None None.

Definition resultOfScan (scan : ScanRecord) : ScanResult :=
  mkScanResult
    (mkRepoRef (repoOwner (scanRepo scan)) (repoName (scanRepo scan))
               (repoRef (scanRepo scan)))
    (scanStartedAt scan) (scanFinishedAt scan) (scanStats scan)
    (map issueOfRow (scanIssues scan))
    None (scanProvider scan)
    (match scanModel scan with Some m => m | None => "unknown" end)
    None "" (Some []).

Definition getCachedScan (owner repo : string) (commitSha : option string)
  (provider model : string) (options : CacheOptions)
  : itree cacheE (option ScanResult) :=
  if missing commitSha || match forceRefresh options with Some b => b | None => false end
  then Ret None
  else
    let sha := match commitSha with Some s => s | None => "" end in
    found <- trigger (RepoFindUnique owner repo) ;;
    match found with
    | inl err =>
        trigger (ConsoleError "[cache] Error retrieving cached scan:" err) ;;
        Ret None
    | inr None => Ret None
    | inr (Some repoRecord) =>
        let maxAge := match maxAge options with Some n => n | None => 604800000%Z end in
        now <- trigger DateNow ;;
        scan <- trigger (ScanFindFirst (repoId repoRecord) sha provider model
                                       (now - maxAge)%Z) ;;
        match scan with
        | inl err =>
            trigger (ConsoleError "[cache] Error retrieving cached scan:" err) ;;
            Ret None
        | inr None => Ret None
        | inr (Some scan) =>
            trigger DateNow ;;
            trigger (ConsoleLog "[cache] Hit! Found cached scan") ;;
            Ret (Some (resultOfScan scan))
        end
    end.

Definition dataOfIssue (issue : Issue) : IssueData :=
  mkIssueData (type issue) (severity issue) (title issue) (description issue)
              (file issue) (line issue) (recommendation issue)
              (option_map name (codemod issue)) (option_map command (codemod issue)).

Definition cacheScanResult (result : ScanResult) (commitSha : option string)
  : itree cacheE unit :=
  match Js.truthy commitSha with
  | None => trigger (ConsoleLog "[cache] Skipping cache save (no commit SHA)") ;; Ret tt
  | Some sha =>
      upserted <- trigger (RepoUpsert (owner (repoOf result)) (repo (repoOf result))
                                      (ref (repoOf result))) ;;
      match upserted with
      | inl err => trigger (ConsoleError "[cache] Error saving scan to database:" err)
      | inr repoRecord =>
          created <- trigger (ScanCreate
                                (mkScanData (repoId repoRecord) sha
                                   (startedAt result) (finishedAt result)
                                   (stats result) (provider result) (model result)
                                   (map dataOfIssue (issues result)))) ;;
          match created with
          | inl err => trigger (ConsoleError "[cache] Error saving scan to database:" err)
          | inr _ => trigger (ConsoleLog "[cache] Saved scan to database")
          end
      end
  end.

(** ** The store is left alone when there is no revision *)

(** A program consults the store when, after host events only, it comes
    to a store event. *)
Inductive touchesStore {R : Type} : itree cacheE R -> Prop :=
  | touches_now (t : itree cacheE R) (X : Type) (e : storeE X) (k : X -> itree cacheE R) :
      observe t = VisF (inl1 e) k -> touchesStore t
  | touches_later (t : itree cacheE R) (X : Type) (e : hostE X) (k : X -> itree cacheE R)
      (x : X) :
      observe t = VisF (inr1 e) k -> touchesStore (k x) -> touchesStore t
  | touches_tau (t t' : itree cacheE R) :
      observe t = TauF t' -> touchesStore t' -> touchesStore t.

Definition startsWithStoreEvent {R : Type} (ot : itree' cacheE R) : bool :=
  match ot with
  | VisF (inl1 _) _ => true
  | _ => false
  end.

Definition startsWithHostEvent {R : Type} (ot : itree' cacheE R) : bool :=
  match ot with
  | VisF (inr1 _) _ => true
  | _ => false
  end.

Definition isTau {R : Type} (ot : itree' cacheE R) : bool :=
  match ot with
  | TauF _ => true
  | _ => false
  end.

Definition isRet {R : Type} (ot : itree' cacheE R) : bool :=
  match ot with
  | RetF _ => true
  | _ => false
  end.

(** After its first event, whatever the answer, the program returns. *)
Definition continuesWithRet {R : Type} (ot : itree' cacheE R) : Prop :=
  match ot with
  | VisF _ k => forall y, isRet (observe (k y)) = true
  | _ => True
  end.

Lemma ret_leaves_store {R : Type} (r : R) : ~ touchesStore (Ret r : itree cacheE R).
Proof.
  intros H. inversion H as [t X e k Hobs | t X e k x Hobs _ | t t' Hobs _]; subst.
  - apply (f_equal startsWithStoreEvent) in Hobs. discriminate Hobs.
  - apply (f_equal startsWithHostEvent) in Hobs. discriminate Hobs.
  - apply (f_equal isTau) in Hobs. discriminate Hobs.
Qed.

(** C8.  When the revision (commit SHA) is null or undefined,
    [getCachedScan] returns null at once and [cacheScanResult] only logs
    that it skips the save: neither consults nor writes the store. *)
Theorem absent_revision_skips_cache
  (owner repo provider model : string) (options : CacheOptions) (result : ScanResult) :
  getCachedScan owner repo None provider model options = Ret None /\
  ~ touchesStore (getCachedScan owner repo None provider model options) /\
  cacheScanResult result None =
    (trigger (ConsoleLog "[cache] Skipping cache save (no commit SHA)") ;; Ret tt) /\
  ~ touchesStore (cacheScanResult result None).
Proof.
  split; [reflexivity | split; [apply ret_leaves_store | split; [reflexivity|]]].
  intros H. inversion H as [t X e k Hobs | t X e k x Hobs Hk | t t' Hobs _]; subst.
  - apply (f_equal startsWithStoreEvent) in Hobs. discriminate Hobs.
  - assert (Hret : continuesWithRet (observe (cacheScanResult result None)))
      by (cbn; intros y; reflexivity).
    rewrite Hobs in Hret. simpl in Hret. specialize (Hret x).
    inversion Hk as [u Y e' k' Hobs' | u Y e' k' y Hobs' _ | u u' Hobs' _]; subst;
      rewrite Hobs' in Hret; discriminate Hret.
  - apply (f_equal isTau) in Hobs. discriminate Hobs.
Qed.

(** With a revision both functions do go to the store. *)
Example present_revision_consults_store (result : ScanResult) :
  touchesStore (getCachedScan "acme" "shop" (Some "4f2a9c1") "vercel" "kimi" noOptions) /\
  touchesStore (cacheScanResult result (Some "4f2a9c1")).
Proof.
  split; eapply touches_now; cbn; reflexivity.
Qed.

End Cache.

(* ================================================================== *)
(** * More about the sampler *)
(* ================================================================== *)

Module SamplingFacts.

Import Heuristics Sampling.

Section WithMicromatch.

Variable isMatch : string -> list string -> bool -> bool.

Definition ids (l : list Scored) : list nat := map fst l.

Lemma ids_length (l : list Scored) : length (ids l) = length l.
Proof. apply length_map. Qed.

Lemma sameObject_in (f : Scored) (selected : list Scored) :
  existsb (sameObject f) selected = true <-> In (fst f) (ids selected).
Proof.
  unfold ids. rewrite existsb_exists, in_map_iff. unfold sameObject. split.
  - intros [s [Hs E]]. exists s. apply Nat.eqb_eq in E. auto.
  - intros [s [E Hs]]. exists s. split; [exact Hs | apply Nat.eqb_eq; auto].
Qed.

Lemma combine_seq_ids {A : Type} (l : list A) (k : nat) :
  map fst (combine (seq k (length l)) l) = seq k (length l).
Proof.
  revert k. induction l as [|x l IH]; intros k; simpl; [reflexivity|].
  rewrite IH. reflexivity.
Qed.

Lemma combine_seq_values {A : Type} (l : list A) (k : nat) :
  map snd (combine (seq k (length l)) l) = l.
Proof.
  revert k. induction l as [|x l IH]; intros k; simpl; [reflexivity|].
  rewrite IH. reflexivity.
Qed.

(** The objects of [scored] are pairwise distinct, and sorting keeps
    them. *)
Lemma sortedScored_ids (files : list RepoFile) (heuristics : list RuleHit) :
  NoDup (ids (sortedScored isMatch files heuristics)).
Proof.
  unfold sortedScored, ids. cbv zeta.
  eapply Permutation_NoDup.
  - apply Permutation_sym, Permutation_map, Js.sortBy_perm.
  - unfold Scored. rewrite combine_seq_ids. apply seq_NoDup.
Qed.

Lemma sortedScored_values (files : list RepoFile) (heuristics : list RuleHit) :
  Permutation (map snd (sortedScored isMatch files heuristics))
              (scoreAll isMatch (map file heuristics) files).
Proof.
  unfold sortedScored. cbv zeta.
  eapply perm_trans; [apply Permutation_map, Js.sortBy_perm|].
  unfold Scored. rewrite combine_seq_values. apply Permutation_refl.
Qed.

(** The first pass selects objects of the list it walks, each at most
    once. *)
Lemma firstPass_selects (m : nat) (rest selected : list Scored) :
  NoDup (ids selected) -> NoDup (ids rest) ->
  (forall x, In x (ids selected) -> ~ In x (ids rest)) ->
  NoDup (ids (firstPass m rest selected)) /\
  incl (firstPass m rest selected) (selected ++ rest).
Proof.
  revert selected. induction rest as [|f rest IH]; intros selected Hs Hr Hd; simpl.
  - split; [exact Hs | apply incl_appl, incl_refl].
  - destruct (m <=? length selected); [split; [exact Hs | apply incl_appl, incl_refl]|].
    unfold ids in Hr. simpl in Hr. inversion Hr as [|? ? Hf Hr']; subst.
    destruct (belowQuota _ _).
    + destruct (IH (selected ++ [f])) as [Hnd Hincl].
      * unfold ids. rewrite map_app. simpl. apply NoDup_app; [exact Hs | repeat constructor; intros [] |].
        intros x Hx [<- | []]. apply (Hd _ Hx). left. reflexivity.
      * exact Hr'.
      * unfold ids. rewrite map_app. simpl. intros x Hx Hin.
        apply in_app_or in Hx. destruct Hx as [Hx | [<- | []]].
        -- apply (Hd _ Hx). right. exact Hin.
        -- apply Hf, Hin.
      * split; [exact Hnd|]. intros x Hx. apply Hincl in Hx.
        rewrite <- app_assoc in Hx. exact Hx.
    + destruct (IH selected) as [Hnd Hincl]; try assumption.
      * intros x Hx Hin. apply (Hd _ Hx). right. exact Hin.
      * split; [exact Hnd|]. intros x Hx. apply Hincl in Hx.
        apply in_app_or in Hx. apply in_or_app.
        destruct Hx as [Hx | Hx]; [left | right; right]; exact Hx.
Qed.

(** The second pass adds objects it has not yet, until the cap or the end
    of the list. *)
Lemma secondPass_selects (m : nat) (rest selected : list Scored) :
  NoDup (ids selected) ->
  NoDup (ids (secondPass m rest selected)) /\
  incl (secondPass m rest selected) (selected ++ rest) /\
  (m <= length (secondPass m rest selected) \/
   forall f, In f rest -> In (fst f) (ids (secondPass m rest selected))).
Proof.
  revert selected. induction rest as [|f rest IH]; intros selected Hs; simpl.
  - split; [exact Hs | split; [apply incl_appl, incl_refl | right; intros f []]].
  - destruct (m <=? length selected) eqn:Hfull.
    + split; [exact Hs | split; [apply incl_appl, incl_refl|]].
      left. apply Nat.leb_le, Hfull.
    + destruct (existsb (sameObject f) selected) eqn:Hin.
      * destruct (IH selected Hs) as [Hnd [Hincl Hall]].
        split; [exact Hnd | split].
        -- intros x Hx. apply Hincl in Hx. apply in_app_or in Hx. apply in_or_app.
           destruct Hx as [Hx | Hx]; [left | right; right]; exact Hx.
        -- destruct Hall as [Hall | Hall]; [left; exact Hall | right].
           intros g [<- | Hg]; [|apply Hall, Hg].
           apply sameObject_in in Hin. unfold ids in *.
           apply in_map_iff in Hin. destruct Hin as [s [E Hsel]].
           rewrite <- E. apply in_map. apply secondPass_keeps, Hsel.
      * assert (Hnew : ~ In (fst f) (ids selected)).
        { intros H. apply sameObject_in in H. congruence. }
        destruct (IH (selected ++ [f])) as [Hnd [Hincl Hall]].
        { unfold ids. rewrite map_app. simpl.
          apply NoDup_app; [exact Hs | repeat constructor; intros [] |].
          intros x Hx [<- | []]. contradiction. }
        split; [exact Hnd | split].
        -- intros x Hx. apply Hincl in Hx. rewrite <- app_assoc in Hx. exact Hx.
        -- destruct Hall as [Hall | Hall]; [left; exact Hall | right].
           intros g [<- | Hg]; [|apply Hall, Hg].
           unfold ids. apply in_map, secondPass_keeps, in_or_app. right. left. reflexivity.
Qed.

Definition selection (files : list RepoFile) (heuristics : list RuleHit) (m : nat)
  : list Scored :=
  secondPass m (sortedScored isMatch files heuristics)
             (firstPass m (sortedScored isMatch files heuristics) []).

Lemma selection_facts (files : list RepoFile) (heuristics : list RuleHit) (m : nat) :
  let scored := sortedScored isMatch files heuristics in
  let selected := selection files heuristics m in
  intelligentSampling isMatch files heuristics m = map snd selected /\
  NoDup (ids selected) /\
  incl selected scored /\
  length selected = Nat.min m (length scored).
Proof.
  cbv zeta. unfold selection.
  set (scored := sortedScored isMatch files heuristics).
  pose proof (sortedScored_ids files heuristics) as Hids. fold scored in Hids.
  destruct (firstPass_selects m scored [] (NoDup_nil _) Hids) as [Hnd1 Hincl1];
    [intros x [] |].
  destruct (secondPass_selects m scored (firstPass m scored []) Hnd1)
    as [Hnd2 [Hincl2 Hall]].
  assert (Hincl : incl (secondPass m scored (firstPass m scored [])) scored).
  { intros x Hx. apply Hincl2 in Hx. apply in_app_or in Hx.
    destruct Hx as [Hx | Hx]; [apply Hincl1 in Hx | ]; exact Hx. }
  assert (Hle : length (secondPass m scored (firstPass m scored [])) <= length scored).
  { rewrite <- (ids_length (secondPass m scored (firstPass m scored []))),
            <- (ids_length scored).
    apply NoDup_incl_length; [exact Hnd2 | apply incl_map, Hincl]. }
  assert (Hcap : length (secondPass m scored (firstPass m scored [])) <= m).
  { apply secondPass_length, firstPass_length. simpl. lia. }
  split; [|split; [exact Hnd2 | split; [exact Hincl|]]].
  - unfold intelligentSampling. cbv zeta. fold scored.
    rewrite selection_within_cap. reflexivity.
  - destruct Hall as [Hfull | Hall]; [lia|].
    assert (length scored <= length (secondPass m scored (firstPass m scored []))).
    { rewrite <- (ids_length (secondPass m scored (firstPass m scored []))),
              <- (ids_length scored).
      apply NoDup_incl_length; [exact Hids|].
      intros x Hx. apply in_map_iff in Hx. destruct Hx as [f [<- Hf]]. apply Hall, Hf. }
    lia.
Qed.


Lemma ids_injective (l : list Scored) (a b : Scored) :
  NoDup (ids l) -> In a l -> In b l -> fst a = fst b -> a = b.
Proof.
  induction l as [|x l IH]; intros Hnd Ha Hb E; [destruct Ha|].
  unfold ids in Hnd. simpl in Hnd. inversion Hnd as [|? ? Hx Hnd']; subst.
  destruct Ha as [-> | Ha], Hb as [-> | Hb].
  - reflexivity.
  - exfalso. apply Hx. rewrite E. apply in_map, Hb.
  - exfalso. apply Hx. rewrite <- E. apply in_map, Ha.
  - apply IH; assumption.
Qed.

(** The scored files split into the selected ones and the others. *)
Lemma selection_partition (files : list RepoFile) (heuristics : list RuleHit) (m : nat) :
  exists rest,
    Permutation (intelligentSampling isMatch files heuristics m ++ rest)
                (scoreAll isMatch (map file heuristics) files).
Proof.
  destruct (selection_facts files heuristics m) as [Hout [Hnd [Hincl _]]].
  set (scored := sortedScored isMatch files heuristics) in *.
  set (selected := selection files heuristics m) in *.
  pose proof (sortedScored_ids files heuristics) as Hids. fold scored in Hids.
  set (others := filter (fun s => negb (existsb (sameObject s) selected)) scored).
  exists (map snd others). rewrite Hout, <- map_app.
  eapply perm_trans; [|apply sortedScored_values]. fold scored.
  apply Permutation_map, NoDup_Permutation.
  - apply NoDup_app.
    + apply (NoDup_map_inv fst). exact Hnd.
    + apply NoDup_filter, (NoDup_map_inv fst). exact Hids.
    + intros x Hx Hy. apply filter_In in Hy. destruct Hy as [_ Hy].
      apply negb_true_iff in Hy.
      assert (existsb (sameObject x) selected = true)
        by (apply sameObject_in, in_map, Hx).
      congruence.
  - apply (NoDup_map_inv fst). exact Hids.
  - intros x. rewrite in_app_iff. split.
    + intros [Hx | Hx]; [apply Hincl, Hx | apply filter_In in Hx; apply Hx].
    + intros Hx. destruct (existsb (sameObject x) selected) eqn:E.
      * left. apply sameObject_in in E. unfold ids in E. apply in_map_iff in E.
        destruct E as [y [Ey Hy]].
        rewrite <- (ids_injective scored y x Hids (Hincl _ Hy) Hx Ey). exact Hy.
      * right. apply filter_In. split; [exact Hx | rewrite E; reflexivity].
Qed.

Lemma scoreFile_inv (flagged : list string) (f : RepoFile) (e : FileWithPriority) :
  scoreFile isMatch flagged f = Some e ->
  fileOf e = f /\ isBinary f = false /\ content f <> None.
Proof.
  intros H. split; [apply (scoreFile_file isMatch _ _ _ H)|].
  unfold scoreFile in H. destruct (isBinary f); [discriminate|].
  destruct (content f); [split; [reflexivity | discriminate] | discriminate].
Qed.

End WithMicromatch.

(** X1.  The sampler returns exactly min(maxFiles, number of non-binary
    files with content) entries: it stops short of the cap only when it
    has run out of text files. *)
Theorem sampler_fills_the_cap
  (isMatch : string -> list string -> bool -> bool)
  (files : list RepoFile) (heuristics : list RuleHit) (maxFiles : nat) :
  length (intelligentSampling isMatch files heuristics maxFiles) =
  Nat.min maxFiles (length (filter scorable files)).
Proof.
  destruct (selection_facts isMatch files heuristics maxFiles) as [Hout [_ [_ Hlen]]].
  rewrite Hout, length_map. unfold Scored in *.
  rewrite Hlen, <- scoreAll_length with (isMatch := isMatch) (flagged := map file heuristics).
  rewrite <- sortedScored_length. reflexivity.
Qed.

(** X2.  The sampler returns scored input files and none twice: together
    with some remainder its output is a rearrangement of the scored
    files, and each entry is the scoring of a non-binary input file that
    has content (binary files and files without content are never
    returned). *)
Theorem sampler_selects_scored_files_once
  (isMatch : string -> list string -> bool -> bool)
  (files : list RepoFile) (heuristics : list RuleHit) (maxFiles : nat) :
  (exists rest,
     Permutation (intelligentSampling isMatch files heuristics maxFiles ++ rest)
                 (scoreAll isMatch (map file heuristics) files)) /\
  (forall e, In e (intelligentSampling isMatch files heuristics maxFiles) ->
     In (fileOf e) files /\ isBinary e = false /\ content e <> None /\
     scoreFile isMatch (map file heuristics) (fileOf e) = Some e).
Proof.
  destruct (selection_partition isMatch files heuristics maxFiles) as [rest Hperm].
  split; [exists rest; exact Hperm|].
  intros e He.
  assert (Hs : In e (scoreAll isMatch (map file heuristics) files)).
  { eapply Permutation_in; [exact Hperm | apply in_or_app; left; exact He]. }
  apply scoreAll_In in Hs. destruct Hs as [f [Hf Hscore]].
  destruct (scoreFile_inv isMatch _ _ _ Hscore) as [-> [Hb Hc]]. auto.
Qed.

(** X3.  With fewer text files than the cap every one of them is selected,
    exactly once. *)
Theorem sampler_selects_all_below_cap
  (isMatch : string -> list string -> bool -> bool)
  (files : list RepoFile) (heuristics : list RuleHit) (maxFiles : nat) :
  length (filter scorable files) <= maxFiles ->
  Permutation (intelligentSampling isMatch files heuristics maxFiles)
              (scoreAll isMatch (map file heuristics) files).
Proof.
  intros Hcap.
  destruct (selection_partition isMatch files heuristics maxFiles) as [rest Hperm].
  destruct (selection_facts isMatch files heuristics maxFiles) as [Hout [_ [_ Hlen]]].
  assert (Hrest : rest = []).
  { apply length_zero_iff_nil.
    pose proof (Permutation_length Hperm) as Hl.
    rewrite length_app, Hout, length_map in Hl. unfold Scored in *.
    rewrite Hlen in Hl.
    pose proof (sortedScored_length isMatch files heuristics) as Hs.
    unfold Scored in *. rewrite Hs in Hl.
    rewrite scoreAll_length in *. lia. }
  subst rest. rewrite app_nil_r in Hperm. exact Hperm.
Qed.

Lemma sampler_selects_all_below_cap_witness :
  Permutation (intelligentSampling globMatch [fileA; fileB] [hitA] 5)
              (scoreAll globMatch (map file [hitA]) [fileA; fileB]).
Proof.
  apply (sampler_selects_all_below_cap globMatch [fileA; fileB] [hitA] 5).
  vm_compute. lia.
Defined.

End SamplingFacts.

(* ================================================================== *)
(** * More about the heuristics *)
(* ================================================================== *)

Module HeuristicsFacts.

Import Heuristics.

Fixpoint noLineFeed (s : string) : bool :=
  match s with
  | EmptyString => true
  | String c s' => negb (Ascii.eqb c Js.LF) && noLineFeed s'
  end.

Lemma split_nonempty (sep : ascii) (s : string) : Js.split sep s <> [].
Proof.
  destruct s as [|c s]; simpl; [discriminate|].
  destruct (Ascii.eqb c sep); [discriminate|].
  destruct (Js.split sep s); discriminate.
Qed.

(** A prefix without line feed is a prefix of the first line. *)
Lemma prefix_first_line (needle s : string) :
  noLineFeed needle = true -> String.prefix needle s = true ->
  String.prefix needle (hd EmptyString (Js.split Js.LF s)) = true.
Proof.
  revert s. induction needle as [|a needle IH]; intros s Hn Hp;
    [destruct (hd EmptyString (Js.split Js.LF s)); reflexivity|].
  simpl in Hn. apply andb_true_iff in Hn. destruct Hn as [Ha Hn].
  destruct s as [|c s]; simpl in Hp; [discriminate|].
  destruct (ascii_dec a c) as [E | E]; [|discriminate]. subst c.
  simpl. apply negb_true_iff in Ha. rewrite Ha.
  specialize (IH s Hn Hp).
  destruct (Js.split Js.LF s) as [|l ls] eqn:Es; [exact (False_ind _ (split_nonempty _ _ Es))|].
  simpl in *. destruct (ascii_dec a a); [exact IH | contradiction].
Qed.

Lemma includes_cons (c : ascii) (s needle : string) :
  Js.includes s needle = true -> Js.includes (String c s) needle = true.
Proof. intros H. simpl. rewrite H. apply orb_true_r. Qed.

(** A text that contains a needle without line feed has a line that
    contains it. *)
Lemma includes_some_line (needle text : string) :
  noLineFeed needle = true -> Js.includes text needle = true ->
  existsb (fun l => Js.includes l needle) (lines text) = true.
Proof.
  intros Hn. unfold lines. induction text as [|c text IH]; intros H.
  - simpl in *. rewrite H. reflexivity.
  - change (Js.includes (String c text) needle)
      with (String.prefix needle (String c text) || Js.includes text needle) in H.
    apply orb_true_iff in H. destruct H as [Hp | Hi].
    + pose proof (prefix_first_line needle (String c text) Hn Hp) as Hfirst.
      destruct (Js.split Js.LF (String c text)) as [|l ls] eqn:Es;
        [exact (False_ind _ (split_nonempty _ _ Es))|].
      simpl in Hfirst. simpl.
      assert (Hl : Js.includes l needle = true)
        by (destruct l; cbn [Js.includes]; rewrite Hfirst; reflexivity).
      rewrite Hl. reflexivity.
    + specialize (IH Hi). cbn [Js.split].
      destruct (Ascii.eqb c Js.LF).
      * cbn [existsb]. rewrite IH. apply orb_true_r.
      * destruct (Js.split Js.LF text) as [|l ls]; [discriminate IH|].
        cbn [existsb] in *. apply orb_true_iff in IH. destruct IH as [Hl | Hls].
        -- rewrite (includes_cons c l needle Hl). reflexivity.
        -- rewrite Hls. apply orb_true_r.
Qed.

Lemma findIndex_found {A : Type} (p : A -> bool) (l : list A) (d : A) :
  existsb p l = true ->
  exists i, Js.findIndex p l = Some i /\ i < length l /\ p (nth i l d) = true.
Proof.
  induction l as [|x l IH]; simpl; [discriminate|].
  destruct (p x) eqn:Hx.
  - intros _. exists 0. repeat split; [lia | exact Hx].
  - simpl. intros H. destruct (IH H) as [i [Hi [Hlt Hp]]].
    exists (S i). rewrite Hi. repeat split; [lia | exact Hp].
Qed.

Section WithRegex.

Variable regexTest : Js.RegexLiteral -> string -> bool.

Lemma fileHits_file (f : RepoFile) (text : string) (h : RuleHit) :
  In h (fileHits regexTest f text) -> file h = path f.
Proof.
  unfold fileHits. rewrite !in_app_iff.
  intros [H | [H | [H | [H | H]]]];
    repeat match type of H with
           | In _ (if ?c then _ else _) => destruct c
           end;
    simpl in H; try contradiction; destruct H as [<- | []]; reflexivity.
Qed.

Lemma fileHits_length (f : RepoFile) (text : string) :
  length (fileHits regexTest f text) <= 5.
Proof.
  unfold fileHits. rewrite !length_app.
  repeat match goal with
         | |- context [if ?c then _ else _] => destruct c
         end; simpl; lia.
Qed.

Lemma runHeuristics_In (files : list RepoFile) (h : RuleHit) :
  In h (runHeuristics regexTest files) <->
  exists f text, In f files /\ isBinary f = false /\ content f = Some text /\
                 In h (fileHits regexTest f text).
Proof.
  unfold runHeuristics. rewrite in_flat_map. split.
  - intros [f [Hf Hh]]. destruct (isBinary f) eqn:Hb; [destruct Hh|].
    destruct (content f) as [text|] eqn:Hc; [|destruct Hh].
    exists f, text. auto.
  - intros [f [text [Hf [Hb [Hc Hh]]]]]. exists f. rewrite Hb, Hc. auto.
Qed.

End WithRegex.

(** X4.  Rule hits are raised for text files only: every hit names the
    path of an input file that is not binary and has content, and a file
    gets at most five hits (one per rule).  A file classified as binary,
    an image under public/ included, never gets a hit. *)
Theorem hits_name_text_files
  (regexTest : Js.RegexLiteral -> string -> bool) (files : list RepoFile) :
  (forall h, In h (runHeuristics regexTest files) ->
     exists f, In f files /\ isBinary f = false /\ content f <> None /\
               file h = path f) /\
  length (runHeuristics regexTest files) <= 5 * length (filter Sampling.scorable files) /\
  (forallb isBinary files = true -> runHeuristics regexTest files = []).
Proof.
  split; [|split].
  - intros h Hh. apply runHeuristics_In in Hh.
    destruct Hh as [f [text [Hf [Hb [Hc Hh]]]]].
    exists f. repeat split; try assumption; [congruence|].
    apply (fileHits_file regexTest f text h Hh).
  - unfold runHeuristics.
    induction files as [|f files IH]; [simpl; lia|].
    cbn [flat_map filter]. rewrite length_app.
    unfold Sampling.scorable at 1.
    destruct (isBinary f); cbn [negb andb length]; [lia|].
    destruct (content f) as [text|]; cbn [length]; [|lia].
    pose proof (fileHits_length regexTest f text). lia.
  - unfold runHeuristics. induction files as [|f files IH]; simpl; [reflexivity|].
    intros H. apply andb_true_iff in H. destruct H as [Hb Hrest].
    rewrite Hb. simpl. apply IH, Hrest.
Qed.

(** X5.  The line of a dangerouslySetInnerHTML hit is a real line of the
    file, counted from one, and that line contains the word. *)
Theorem inner_html_hit_points_at_its_line
  (regexTest : Js.RegexLiteral -> string -> bool) (files : list RepoFile) (h : RuleHit) :
  In h (runHeuristics regexTest files) ->
  rule h = "react-dangerouslySetInnerHTML" ->
  exists f text,
    In f files /\ content f = Some text /\ file h = path f /\
    1 <= line h <= length (lines text) /\
    Js.includes (nth (line h - 1) (lines text) EmptyString) "dangerouslySetInnerHTML" = true.
Proof.
  intros Hh Hrule. apply runHeuristics_In in Hh.
  destruct Hh as [f [text [Hf [Hb [Hc Hh]]]]].
  exists f, text. split; [exact Hf | split; [exact Hc|]].
  split; [apply (fileHits_file regexTest f text h Hh)|].
  unfold fileHits in Hh. rewrite !in_app_iff in Hh.
  destruct Hh as [H | [H | [H | [H | H]]]].
  - destruct (Js.includes text "dangerouslySetInnerHTML") eqn:Hinc; [|destruct H].
    destruct H as [<- | []]. cbn [line].
    destruct (findIndex_found (fun l => Js.includes l "dangerouslySetInnerHTML")
                (lines text) EmptyString
                (includes_some_line "dangerouslySetInnerHTML" text eq_refl Hinc))
      as [i [Hi [Hlt Hp]]].
    unfold Js.findIndexPlusOne. rewrite Hi.
    replace (i + 1 - 1) with i by lia. split; [lia | exact Hp].
  - exfalso. destruct (regexTest Js.EvalCall text); [|destruct H].
    destruct H as [<- | []]. discriminate Hrule.
  - exfalso. destruct (_ && _); [|destruct H].
    destruct H as [<- | []]. discriminate Hrule.
  - exfalso. destruct (_ && _); [|destruct H].
    destruct H as [<- | []]. discriminate Hrule.
  - exfalso. destruct (_ && _); [|destruct H].
    destruct (negb _); [|destruct H].
    destruct H as [<- | []]. discriminate Hrule.
Qed.

Definition innerHtmlFile : RepoFile :=
  mkRepoFile "components/Post.tsx"
    (Some "export function Post(p) {
  return <div dangerouslySetInnerHTML={p.html} />
}")
    false.

Lemma inner_html_hit_points_at_its_line_witness :
  exists f text,
    In f [innerHtmlFile] /\ content f = Some text /\
    "components/Post.tsx" = path f /\
    1 <= 2 <= length (lines text) /\
    Js.includes (nth (2 - 1) (lines text) EmptyString) "dangerouslySetInnerHTML" = true.
Proof.
  apply (inner_html_hit_points_at_its_line (fun _ _ => false) [innerHtmlFile]
           (mkRuleHit "react-dangerouslySetInnerHTML" "components/Post.tsx" 2
              "Use of dangerouslySetInnerHTML detected. Ensure sanitization."
              (Some "dangerouslySetInnerHTML"))).
  - vm_compute. left. reflexivity.
  - reflexivity.
Defined.

End HeuristicsFacts.

(* ================================================================== *)
(** * More about the report *)
(* ================================================================== *)

Module ReportFacts.

Import Types Report.

Definition tripleLF : string := String Js.LF (String Js.LF (String Js.LF EmptyString)).

(** After the replacement no run of three line feeds is left; [run] line
    feeds in front of the rest count towards the next run. *)
Lemma collapseFrom_runs (s : string) (run : nat) :
  Js.includes (Js.collapseFrom run s) tripleLF = false /\
  (1 <= run -> String.prefix (String Js.LF (String Js.LF EmptyString))
                             (Js.collapseFrom run s) = false) /\
  (2 <= run -> String.prefix (String Js.LF EmptyString) (Js.collapseFrom run s) = false).
Proof.
  revert run. induction s as [|c s IH]; intros run.
  - simpl. repeat split; reflexivity.
  - cbn [Js.collapseFrom]. destruct (Ascii.eqb c Js.LF) eqn:Ec.
    + apply Ascii.eqb_eq in Ec. subst c.
      destruct (run <? 2) eqn:Hrun.
      * apply Nat.ltb_lt in Hrun.
        destruct (IH (S run)) as [Hinc [H1 H2]].
        split; [|split].
        -- unfold tripleLF. cbn [Js.includes String.prefix].
           destruct (ascii_dec Js.LF Js.LF); [|contradiction].
           fold tripleLF. rewrite Hinc, H1; [reflexivity | lia].
        -- intros Hge. cbn [String.prefix].
           destruct (ascii_dec Js.LF Js.LF); [|contradiction].
           apply H2. lia.
        -- intros Hge. lia.
      * apply IH.
    + assert (Hc : c <> Js.LF) by (intros ->; rewrite Ascii.eqb_refl in Ec; discriminate).
      destruct (IH 0) as [Hinc _].
      split; [|split].
      * unfold tripleLF. cbn [Js.includes String.prefix].
        destruct (ascii_dec Js.LF c); [congruence|].
        fold tripleLF. rewrite Hinc. reflexivity.
      * intros _. cbn [String.prefix]. destruct (ascii_dec Js.LF c); [congruence | reflexivity].
      * intros _. cbn [String.prefix]. destruct (ascii_dec Js.LF c); [congruence | reflexivity].
Qed.

Lemma includes_tail (c : ascii) (s needle : string) :
  Js.includes (String c s) needle = false -> Js.includes s needle = false.
Proof.
  change (Js.includes (String c s) needle)
    with (String.prefix needle (String c s) || Js.includes s needle).
  intros H. apply orb_false_iff in H. apply H.
Qed.

Lemma includes_head (c : ascii) (s needle : string) :
  Js.includes (String c s) needle = false -> String.prefix needle (String c s) = false.
Proof.
  change (Js.includes (String c s) needle)
    with (String.prefix needle (String c s) || Js.includes s needle).
  intros H. apply orb_false_iff in H. apply H.
Qed.

Lemma trimStart_includes (s needle : string) :
  Js.includes s needle = false -> Js.includes (Js.trimStart s) needle = false.
Proof.
  induction s as [|c s IH]; intros H; [exact H|].
  cbn [Js.trimStart]. destruct (Js.isWhiteSpace c); [|exact H].
  apply IH, (includes_tail c s needle H).
Qed.

(** [trimEnd s] is the start of [s]. *)
Lemma trimEnd_prefix (s : string) : String.prefix (Js.trimEnd s) s = true.
Proof.
  induction s as [|c s IH]; [reflexivity|].
  cbn [Js.trimEnd]. destruct (Js.trimEnd s) as [|d t] eqn:Et.
  - destruct (Js.isWhiteSpace c); [reflexivity|].
    cbn [String.prefix]. destruct (ascii_dec c c); [|contradiction].
    destruct s; reflexivity.
  - cbn [String.prefix]. destruct (ascii_dec c c); [exact IH | contradiction].
Qed.

Lemma prefix_trans (a b c : string) :
  String.prefix a b = true -> String.prefix b c = true -> String.prefix a c = true.
Proof.
  revert b c. induction a as [|x a IH]; intros b c Hab Hbc; [destruct c; reflexivity|].
  destruct b as [|y b]; [discriminate Hab|].
  destruct c as [|z c]; [discriminate Hbc|].
  cbn [String.prefix] in *.
  destruct (ascii_dec x y) as [-> |]; [|discriminate].
  destruct (ascii_dec y z) as [-> |]; [|discriminate].
  apply (IH b c Hab Hbc).
Qed.

Lemma prefix_includes (needle a b : string) :
  String.prefix a b = true -> Js.includes b needle = false ->
  Js.includes a needle = false.
Proof.
  revert b. induction a as [|x a IH]; intros b Hab Hb.
  - destruct needle as [|n needle]; [|reflexivity].
    destruct b; discriminate Hb.
  - destruct b as [|y b]; [discriminate Hab|].
    cbn [String.prefix] in Hab. destruct (ascii_dec x y) as [-> |]; [|discriminate].
    change (Js.includes (String y a) needle)
      with (String.prefix needle (String y a) || Js.includes a needle).
    rewrite (IH b Hab (includes_tail y b needle Hb)), orb_false_r.
    destruct (String.prefix needle (String y a)) eqn:Hp; [|reflexivity].
    assert (Hab' : String.prefix (String y a) (String y b) = true)
      by (cbn [String.prefix]; destruct (ascii_dec y y); [exact Hab | contradiction]).
    rewrite <- (includes_head y b needle Hb).
    symmetry. apply (prefix_trans _ _ _ Hp Hab').
Qed.

Lemma trim_includes (s needle : string) :
  Js.includes s needle = false -> Js.includes (Js.trim s) needle = false.
Proof.
  intros H. unfold Js.trim.
  apply (prefix_includes needle _ (Js.trimStart s)); [apply trimEnd_prefix|].
  apply trimStart_includes, H.
Qed.

(** The types of [order] cut any list of issues into pieces that together
    hold each issue once. *)
Lemma flat_map_app_perm {A B : Type} (f g : A -> list B) (l : list A) :
  Permutation (flat_map (fun x => f x ++ g x) l) (flat_map f l ++ flat_map g l).
Proof.
  induction l as [|x l IH]; simpl; [constructor|].
  rewrite <- !app_assoc.
  apply Permutation_app_head.
  eapply perm_trans; [apply Permutation_app_head, IH|].
  apply Permutation_app_swap_app.
Qed.

Lemma by_type_perm (issues : list Issue) :
  Permutation (flat_map (fun t => filter (hasType t) issues) order) issues.
Proof.
  induction issues as [|i issues IH].
  - unfold order. simpl. constructor.
  - assert (E : flat_map (fun t => filter (hasType t) (i :: issues)) order =
               flat_map (fun t => (if hasType t i then [i] else [])
                                  ++ filter (hasType t) issues) order).
    { apply flat_map_ext. intros t. simpl. destruct (hasType t i); reflexivity. }
    rewrite E.
    eapply perm_trans; [apply flat_map_app_perm|].
    assert (Hone : flat_map (fun t => if hasType t i then [i] else []) order = [i])
      by (unfold order, hasType; destruct (type i); reflexivity).
    rewrite Hone. simpl. constructor. exact IH.
Qed.

Lemma occurs_filter (issues : list Issue) (l : list IssueType) :
  flat_map (fun t => filter (hasType t) issues) (filter (occurs issues) l) =
  flat_map (fun t => filter (hasType t) issues) l.
Proof.
  induction l as [|t l IH]; simpl; [reflexivity|].
  destruct (occurs issues t) eqn:E; simpl; [rewrite IH; reflexivity|].
  rewrite IH.
  assert (Hnil : filter (hasType t) issues = []).
  { clear IH. unfold occurs in E. induction issues as [|i issues IHi]; [reflexivity|].
    simpl in *. apply orb_false_iff in E. destruct E as [E1 E2].
    rewrite E1. apply IHi, E2. }
  rewrite Hnil. reflexivity.
Qed.

Lemma sections_perm (issues : list Issue) :
  Permutation (flat_map snd (sections issues)) issues.
Proof.
  rewrite sections_spec, flat_map_concat_map, map_map, <- flat_map_concat_map.
  cbn [snd].
  eapply perm_trans; [|apply by_type_perm].
  rewrite <- (occurs_filter issues order).
  induction (filter (occurs issues) order) as [|t l IH]; simpl; [constructor|].
  apply Permutation_app; [apply Js.sortBy_perm | exact IH].
Qed.

(** X6.  The findings part of the report holds every issue exactly once:
    the sections taken together are a rearrangement of the issues, no
    section is empty, no type has two sections, and the counts in the
    section headings add up to the number of issues. *)
Theorem report_lists_every_issue_once (issues : list Issue) :
  Permutation (flat_map snd (sections issues)) issues /\
  NoDup (map fst (sections issues)) /\
  (forall s, In s (sections issues) -> snd s <> []) /\
  list_sum (map (fun s => length (snd s)) (sections issues)) = length issues.
Proof.
  split; [apply sections_perm | split; [|split]].
  - rewrite sections_spec, map_map. cbn [fst]. rewrite map_id.
    apply NoDup_filter. unfold order.
    repeat constructor; simpl; intuition discriminate.
  - intros s Hs. rewrite sections_spec in Hs. apply in_map_iff in Hs.
    destruct Hs as [t [<- Ht]]. cbn [snd]. intros Hnil.
    apply filter_In in Ht. destruct Ht as [_ Hocc].
    unfold occurs in Hocc. apply existsb_exists in Hocc. destruct Hocc as [i [Hi Hti]].
    assert (Hin : In i (Js.sortBy bySeverity (filter (hasType t) issues)))
      by (apply Js.sortBy_In, filter_In; auto).
    rewrite Hnil in Hin. destruct Hin.
  - rewrite <- (Permutation_length (sections_perm issues)).
    induction (sections issues) as [|s l IH]; simpl; [reflexivity|].
    rewrite length_app, IH. reflexivity.
Qed.

(** X7.  Neither a formatted issue nor a report that has findings holds
    three line feeds in a row: blank lines never come in twos. *)
Theorem report_has_no_double_blank_line
  (toLocaleString : string -> string) (result : ScanResult) :
  (forall issue index, Js.includes (formatIssue issue index) tripleLF = false) /\
  (issues result <> [] ->
   Js.includes (buildMarkdownReport toLocaleString result) tripleLF = false).
Proof.
  split.
  - intros issue index. unfold formatIssue, Js.collapseBlankLines. cbv zeta.
    apply collapseFrom_runs.
  - intros Hne. unfold buildMarkdownReport.
    destruct (issues result) as [|i l]; [congruence|].
    apply trim_includes. unfold Js.collapseBlankLines. apply collapseFrom_runs.
Qed.

Lemma report_has_no_double_blank_line_witness :
  Js.includes (buildMarkdownReport (fun iso => iso) exampleReport) tripleLF = false.
Proof.
  apply (report_has_no_double_blank_line (fun iso => iso) exampleReport).
  discriminate.
Defined.

End ReportFacts.

(* ================================================================== *)
(** * More about the coordinator *)
(* ================================================================== *)

Module CoordinatorFacts.

Import Types Coordinator.

(** ** Sampling inside a run *)

Lemma scoreAll_files (isMatch : string -> list string -> bool -> bool)
  (flagged : list string) (files : list RepoFile) :
  map Sampling.fileOf (Sampling.scoreAll isMatch flagged files) =
  filter Sampling.scorable files.
Proof.
  induction files as [|f files IH]; [reflexivity|].
  cbn [Sampling.scoreAll filter flat_map].
  destruct (Sampling.scoreFile isMatch flagged f) as [e|] eqn:E.
  - destruct (SamplingFacts.scoreFile_inv isMatch flagged f e E) as [He [Hb Hc]].
    unfold Sampling.scorable at 1. rewrite Hb.
    destruct (content f); [|congruence].
    simpl. rewrite He. f_equal. exact IH.
  - unfold Sampling.scoreFile in E. unfold Sampling.scorable at 1.
    destruct (isBinary f); [exact IH|].
    destruct (content f); [discriminate E | exact IH].
Qed.

Lemma sampledFiles_count (rt : Runtime) (input : Input.t) :
  length (sampledFiles rt input) =
  Nat.min (samplingLimit input) (length (filter Sampling.scorable (Input.files input))).
Proof.
  unfold sampledFiles.
  destruct (SamplingFacts.selection_facts (isMatch rt) (Input.files input)
              (heuristicsOf rt input) (samplingLimit input)) as [Hout [_ [_ Hlen]]].
  rewrite Hout, length_map. unfold Sampling.Scored in *. rewrite Hlen.
  rewrite Sampling.sortedScored_length, Sampling.scoreAll_length. reflexivity.
Qed.

(** X8.  A run analyses min(900, number of text files) files, however many
    files the repository has; the [sampledFiles] statistic of the result
    is that number. *)
Theorem run_samples_up_to_900_text_files (rt : Runtime) (input : Input.t) :
  length (sampledFiles rt input) =
    Nat.min 900 (length (filter Sampling.scorable (Input.files input))) /\
  In ("sampledFiles",
      Nat.min 900 (length (filter Sampling.scorable (Input.files input))))
     (statsOf rt input).
Proof.
  assert (H : length (sampledFiles rt input) =
              Nat.min 900 (length (filter Sampling.scorable (Input.files input)))).
  { rewrite sampledFiles_count.
    pose proof (filter_length_le Sampling.scorable (Input.files input)) as Hle.
    unfold samplingLimit.
    destruct (length (Input.files input) <=? 900) eqn:E;
      [apply Nat.leb_le in E | apply Nat.leb_gt in E]; lia. }
  split; [exact H|].
  unfold statsOf. rewrite H. simpl. tauto.
Qed.

(** X9.  In a repository of at most 900 files nothing is sampled away:
    the files handed to the parser are the text files of the input, each
    once, and every file named by a heuristic hit is among them. *)
Theorem small_repository_is_analysed_whole (rt : Runtime) (input : Input.t) :
  length (Input.files input) <= 900 ->
  Permutation (map Sampling.fileOf (sampledFiles rt input))
              (filter Sampling.scorable (Input.files input)) /\
  forall h, In h (heuristicsOf rt input) ->
    exists e, In e (sampledFiles rt input) /\
              path (Sampling.fileOf e) = Heuristics.file h.
Proof.
  intros Hsmall.
  assert (Hperm : Permutation (map Sampling.fileOf (sampledFiles rt input))
                              (filter Sampling.scorable (Input.files input))).
  { destruct (SamplingFacts.selection_partition (isMatch rt) (Input.files input)
                (heuristicsOf rt input) (samplingLimit input)) as [rest Hrest].
    fold (sampledFiles rt input) in Hrest.
    assert (Hnil : rest = []).
    { apply length_zero_iff_nil.
      pose proof (Permutation_length Hrest) as Hl.
      rewrite length_app, sampledFiles_count, Sampling.scoreAll_length in Hl.
      pose proof (filter_length_le Sampling.scorable (Input.files input)) as Hle.
      unfold samplingLimit in Hl. apply Nat.leb_le in Hsmall. rewrite Hsmall in Hl.
      lia. }
    subst rest. rewrite app_nil_r in Hrest.
    rewrite <- (scoreAll_files (isMatch rt) (map Heuristics.file (heuristicsOf rt input))).
    apply Permutation_map, Hrest. }
  split; [exact Hperm|].
  intros h Hh. unfold heuristicsOf in Hh.
  apply HeuristicsFacts.runHeuristics_In in Hh.
  destruct Hh as [f [text [Hf [Hb [Hc Hhit]]]]].
  assert (Hin : In f (map Sampling.fileOf (sampledFiles rt input))).
  { eapply Permutation_in; [apply Permutation_sym, Hperm|].
    apply filter_In. split; [exact Hf|].
    unfold Sampling.scorable. rewrite Hb, Hc. reflexivity. }
  apply in_map_iff in Hin. destruct Hin as [e [He Hin]].
  exists e. split; [exact Hin|].
  rewrite (HeuristicsFacts.fileHits_file _ _ _ _ Hhit).
  rewrite He. reflexivity.
Qed.

Lemma small_repository_is_analysed_whole_witness :
  Permutation (map Sampling.fileOf (sampledFiles sampleRuntime sampleInput))
              (filter Sampling.scorable (Input.files sampleInput)).
Proof.
  apply (small_repository_is_analysed_whole sampleRuntime sampleInput).
  vm_compute. lia.
Defined.

(** ** The normalizer *)

Section WithJson.

Variable JSON_parse : string -> string + JsValue.




End WithJson.


(** X11.  A text that parses, but not to an array, yields no items and the
    warning that names the type received; the bracketed slice is not
    tried. *)
Theorem normalizer_rejects_non_arrays
  (JSON_parse : string -> string + JsValue) (agent text : string) (v : JsValue)
  (warnings : list string) :
  Js.trim text <> EmptyString ->
  JSON_parse (Js.trim text) = inr v ->
  (forall items, v <> JArray items) ->
  normalizeAgentOutput JSON_parse agent (JString text) warnings =
  ([], warnings ++ [ (agent ++ ": parsed JSON was not an array (received "
                        ++ typeOf v ++ ")")%string ]).
Proof.
  intros Hne Hparse Hv. unfold normalizeAgentOutput.
  destruct (String.length (Js.trim text) =? 0) eqn:E.
  - apply Nat.eqb_eq in E. destruct (Js.trim text); [congruence | discriminate E].
  - unfold attemptsOf. cbn [tryAttempts]. rewrite Hparse.
    destruct v as [items | s | t]; [exfalso; apply (Hv items); reflexivity | |];
      reflexivity.
Qed.

Lemma normalizer_rejects_non_arrays_witness :
  normalizeAgentOutput sampleParse "db" (JString " {} ") ["ux: empty response from model"] =
  ([], ["ux: empty response from model";
        "db: parsed JSON was not an array (received object)"]).
Proof.
  apply (normalizer_rejects_non_arrays sampleParse "db" " {} " (JOther "object")).
  - discriminate.
  - reflexivity.
  - discriminate.
Defined.

(** ** Merging *)










(** ** Codemods, ids and warnings *)

Definition withoutCodemod (issue : Issue) : Issue :=
  mkIssue (id issue) (type issue) (severity issue) (title issue) (description issue)
          (file issue) (line issue) (codeFrame issue) (recommendation issue)
          None (docs issue) (evidence issue).

(** What the planner's items may do to one issue: nothing but replace its
    codemod by that of an item that names the issue's title. *)
Definition planned (codemods : list RawItem) (before after : Issue) : Prop :=
  withoutCodemod after = withoutCodemod before /\
  (codemod after = codemod before \/
   exists item cm,
     In item codemods /\ issueTitle item = Some (title before) /\
     itemCodemod item = Some cm /\ codemod after = Some cm).

Lemma planned_refl (codemods : list RawItem) (issue : Issue) :
  planned codemods issue issue.
Proof. split; [reflexivity | left; reflexivity]. Qed.

Lemma Forall2_same {A : Type} (R : A -> A -> Prop) (l : list A) :
  (forall x, R x x) -> Forall2 R l l.
Proof. intros H. induction l; constructor; auto. Qed.

Lemma setCodemodAt_planned (item : RawItem) (t : string) (cm : Codemod)
  (issues : list Issue) :
  issueTitle item = Some t -> itemCodemod item = Some cm ->
  Forall2 (planned [item]) issues (setCodemodAt t cm issues).
Proof.
  intros Ht Hcm. induction issues as [|issue rest IH]; [constructor|].
  cbn [setCodemodAt]. destruct (String.eqb (title issue) t) eqn:E.
  - constructor; [|apply Forall2_same, planned_refl].
    apply String.eqb_eq in E. split; [reflexivity|].
    right. exists item, cm. repeat split; [left; reflexivity | congruence | exact Hcm].
  - constructor; [apply planned_refl | exact IH].
Qed.

Lemma applyCodemod_planned (item : RawItem) (issues : list Issue) :
  Forall2 (planned [item]) issues (applyCodemod issues item).
Proof.
  unfold applyCodemod.
  destruct (issueTitle item) as [[|c t]|] eqn:Ht; cbn [Js.truthy];
    try (apply Forall2_same, planned_refl).
  destruct (itemCodemod item) as [cm|] eqn:Hcm; [|apply Forall2_same, planned_refl].
  apply (setCodemodAt_planned item _ cm issues Ht Hcm).
Qed.

Lemma planned_step (item : RawItem) (codemods : list RawItem) (a b c : Issue) :
  planned [item] a b -> planned codemods b c -> planned (item :: codemods) a c.
Proof.
  intros [Hab Hcab] [Hbc Hcbc]. split; [congruence|].
  assert (Htitle : title b = title a)
    by (apply (f_equal title) in Hab; exact Hab).
  destruct Hcbc as [Hsame | [it [cm [Hin [Ht [Hcm Hafter]]]]]].
  - destruct Hcab as [Hsame' | [it [cm [Hin [Ht [Hcm Hafter]]]]]].
    + left. congruence.
    + right. exists it, cm. destruct Hin as [<- | []].
      repeat split; [left; reflexivity | exact Ht | exact Hcm | congruence].
  - right. exists it, cm.
    repeat split; [right; exact Hin | congruence | exact Hcm | exact Hafter].
Qed.

Lemma Forall2_step (item : RawItem) (codemods : list RawItem) (l1 l2 l3 : list Issue) :
  Forall2 (planned [item]) l1 l2 -> Forall2 (planned codemods) l2 l3 ->
  Forall2 (planned (item :: codemods)) l1 l3.
Proof.
  intros H12. revert l3. induction H12 as [|a b l1 l2 Hab H12 IH]; intros l3 H23.
  - inversion H23. constructor.
  - inversion H23 as [|? c ? l3' Hbc H23']; subst.
    constructor; [apply (planned_step item codemods a b c Hab Hbc) | apply IH, H23'].
Qed.

Lemma fold_planned (codemods : list RawItem) (issues : list Issue) :
  Forall2 (planned codemods) issues (fold_left applyCodemod codemods issues).
Proof.
  revert issues. induction codemods as [|item codemods IH]; intros issues.
  - simpl. apply Forall2_same, planned_refl.
  - cbn [fold_left].
    apply (Forall2_step item codemods issues (applyCodemod issues item));
      [apply applyCodemod_planned | apply IH].
Qed.

Lemma planned_unchanged (codemods : list RawItem) (before after : Issue) :
  planned codemods before after ->
  (forall item, In item codemods -> issueTitle item <> Some (title before)) ->
  after = before.
Proof.
  intros [Hrest Hcm] Hnone.
  destruct Hcm as [Hcm | [item [cm [Hin [Ht _]]]]]; [|exfalso; apply (Hnone item Hin Ht)].
  destruct before, after. unfold withoutCodemod in Hrest. simpl in *.
  injection Hrest as -> -> -> -> -> -> -> -> -> -> ->. subst. reflexivity.
Qed.

(** X13.  The planner's answer can only attach codemods: the issues keep
    their number, order and every other field, and an issue's codemod
    afterwards is the one it had or that of a plan item naming its
    title; a plan that names no issue's title changes nothing. *)
Theorem planner_only_attaches_codemods (codemods : list RawItem) (issues : list Issue) :
  Forall2 (planned codemods) issues (fold_left applyCodemod codemods issues) /\
  length (fold_left applyCodemod codemods issues) = length issues /\
  ((forall item issue, In item codemods -> In issue issues ->
                       issueTitle item <> Some (title issue)) ->
   fold_left applyCodemod codemods issues = issues).
Proof.
  pose proof (fold_planned codemods issues) as H.
  split; [exact H | split].
  - symmetry. apply (Forall2_length H).
  - intros Hnone. induction H as [|a b l1 l2 Hab H IH]; [reflexivity|].
    f_equal.
    + apply (planned_unchanged codemods a b Hab).
      intros item Hin. apply (Hnone item a Hin). left. reflexivity.
    + apply IH. intros item issue Hin Hissue. apply (Hnone item issue Hin).
      right. exact Hissue.
Qed.














(** ** The progress stream *)

(** The same call without the [progress] argument. *)
Definition withoutStream (input : Input.t) : Input.t :=
  Input.mk (Input.repo input) (Input.files input) (Input.prismaSchema input)
           (Input.provider input) false.

Definition unobserved (evs : list Event) : list Event :=
  filter (fun e => negb (isEmitted e)) evs.

(** Two actions that end the same way and append the same events, apart
    from the updates that only the first emits. *)
Definition quieter {A : Type} (m m' : M A) : Prop :=
  exists r evs, runs m r evs /\ runs m' r (unobserved evs).

Lemma quieter_bind {A B : Type} (m m' : M A) (k k' : A -> M B) :
  quieter m m' -> (forall a, quieter (k a) (k' a)) -> quieter (bind m k) (bind m' k').
Proof.
  intros [r [evs [Hm Hm']]] Hk. destruct r as [a | e].
  - destruct (Hk a) as [r2 [evs2 [Hk1 Hk2]]].
    exists r2, (evs ++ evs2). unfold unobserved. rewrite filter_app.
    split; eapply runs_bind; eassumption.
  - exists (Thrown e), evs. split; apply runs_bind_thrown; assumption.
Qed.

Lemma quieter_stage (input : Input.t) (s : Streaming.ProgressStage) (p : Q)
  (msg : string) (d : option Streaming.Details) :
  quieter (stage input s p msg d) (stage (withoutStream input) s p msg d).
Proof.
  exists (Returned tt), (emitted input (Streaming.stageUpdate s p msg d)).
  split; [apply runs_stage|].
  replace (unobserved (emitted input (Streaming.stageUpdate s p msg d)))
    with (emitted (withoutStream input) (Streaming.stageUpdate s p msg d));
    [apply runs_stage|].
  unfold emitted, withoutStream. simpl. destruct (Input.progressStream input); reflexivity.
Qed.

Lemma quieter_complete (input : Input.t) (msg : string)
  (partial : option Streaming.PartialResults) :
  quieter (complete input msg partial) (complete (withoutStream input) msg partial).
Proof.
  exists (Returned tt), (emitted input (Streaming.completeUpdate msg partial)).
  split; [apply runs_complete|].
  replace (unobserved (emitted input (Streaming.completeUpdate msg partial)))
    with (emitted (withoutStream input) (Streaming.completeUpdate msg partial));
    [apply runs_complete|].
  unfold emitted, withoutStream. simpl. destruct (Input.progressStream input); reflexivity.
Qed.

Lemma quieter_record (e : Event) : isEmitted e = false -> quieter (record e) (record e).
Proof.
  intros He. exists (Returned tt), [e]. split; [apply runs_record|].
  unfold unobserved. simpl. rewrite He. apply runs_record.
Qed.

Lemma quieter_ret {A : Type} (a : A) : quieter (ret a) (ret a).
Proof. exists (Returned a), []. split; apply runs_ret. Qed.

Lemma quieter_throw {A : Type} (e : JsError) : quieter (@throw A e) (throw e).
Proof. exists (Thrown e), []. split; apply runs_throw. Qed.

Section Quiet.

Variable rt : Runtime.
Variable oracle : Oracle.
Variable input : Input.t.

Lemma quieter_agentWrapper (a : Agent) (outcome : Outcome) (completedAgents : nat) :
  quieter (agentWrapper rt input a outcome completedAgents)
          (agentWrapper rt (withoutStream input) a outcome completedAgents).
Proof.
  unfold agentWrapper. destruct outcome as [result | err]; cbv zeta.
  - apply quieter_bind; [apply quieter_stage | intros _].
    apply quieter_bind; [apply quieter_record; reflexivity | intros _].
    apply quieter_ret.
  - destruct (recoverableText err) as [text|].
    + destruct (parseJson rt (unwrapMarkdown text)).
      * apply quieter_bind; [apply quieter_record; reflexivity | intros _].
        apply quieter_throw.
      * apply quieter_bind; [apply quieter_record; reflexivity | intros _].
        apply quieter_ret.
    + apply quieter_bind; [apply quieter_record; reflexivity | intros _].
      apply quieter_throw.
Qed.

Lemma quieter_awaitAll (outcomeOf : Agent -> Outcome) (order : list Agent)
  (completedAgents : nat) (settled : list (Agent * JsValue)) :
  quieter (awaitAll rt input outcomeOf order completedAgents settled)
          (awaitAll rt (withoutStream input) outcomeOf order completedAgents settled).
Proof.
  revert completedAgents settled.
  induction order as [|a rest IH]; intros completedAgents settled; cbn [awaitAll].
  - apply quieter_ret.
  - apply quieter_bind; [apply quieter_agentWrapper | intros r; apply IH].
Qed.

Lemma quieter_finish (settled : list (Agent * JsValue)) (codemodsJson : JsValue) :
  quieter (finish rt oracle input settled codemodsJson)
          (finish rt oracle (withoutStream input) settled codemodsJson).
Proof.
  unfold finish. cbv zeta.
  apply quieter_bind; [apply quieter_stage | intros _].
  apply quieter_bind; [apply quieter_complete | intros _].
  apply quieter_ret.
Qed.

Lemma quieter_auditBody :
  quieter (auditBody rt oracle input) (auditBody rt oracle (withoutStream input)).
Proof.
  unfold auditBody.
  do 8 (apply quieter_bind; [apply quieter_stage | intros _]).
  apply quieter_bind; [apply quieter_awaitAll | intros settled].
  apply quieter_bind; [apply quieter_stage | intros _].
  apply quieter_bind; [apply quieter_record; reflexivity | intros _].
  change (issuesForPlanner rt oracle (withoutStream input) settled)
    with (issuesForPlanner rt oracle input settled).
  destruct (codemodAgentPlan oracle (issuesForPlanner rt oracle input settled));
    [apply quieter_finish | apply quieter_throw].
Qed.

End Quiet.

(** X16.  The progress stream only observes: the same call without it
    ends the same way (the same report or the same error), appends the
    same events apart from the updates, and emits no update at all. *)
Theorem progress_stream_only_observes (rt : Runtime) (oracle : Oracle) (input : Input.t) :
  exists r evs,
    runs (runFullAudit rt oracle input) r evs /\
    runs (runFullAudit rt oracle (withoutStream input)) r (unobserved evs) /\
    forallb (fun e => negb (isEmitted e)) (unobserved evs) = true.
Proof.
  destruct (quieter_auditBody rt oracle input) as [r [evs [Hon Hoff]]].
  exists r, evs. split; [|split].
  - intros w. unfold runFullAudit, bind, getAIProvider, setAIProvider, tryFinally.
    rewrite Hon. reflexivity.
  - intros w. unfold runFullAudit, bind, getAIProvider, setAIProvider, tryFinally.
    rewrite Hoff. reflexivity.
  - unfold unobserved. apply forallb_forall. intros e He.
    apply filter_In in He. apply He.
Qed.

End CoordinatorFacts.

(* ================================================================== *)
(** * More about the progress scale *)
(* ================================================================== *)

Module StreamingFacts.

Import Streaming.

Lemma calculateProgress_value (s : ProgressStage) (p : Q) :
  (calculateProgress s p ==
   let value := fst (stageWeights s) + snd (stageWeights s) * p / 100 in
   if Qle_bool 100 value then 100 else value)%Q.
Proof.
  unfold calculateProgress. destruct (stageWeights s) as [start weight]. cbv zeta.
  apply Qred_correct.
Qed.

Lemma weights_in_scale (s : ProgressStage) :
  (0 <= fst (stageWeights s) /\ 0 <= snd (stageWeights s) /\
   fst (stageWeights s) + snd (stageWeights s) <= 100)%Q.
Proof. destruct s; simpl; repeat split; lra. Qed.

(** X17.  Within a stage the overall progress grows with the substage
    progress and stays between the start of the stage and its end (start
    plus weight), which is never above 100. *)
Theorem progress_stays_within_the_stage (s : ProgressStage) (p q : Q) :
  (0 <= p -> p <= q -> q <= 100 ->
   fst (stageWeights s) <= calculateProgress s p /\
   calculateProgress s p <= calculateProgress s q /\
   calculateProgress s q <= fst (stageWeights s) + snd (stageWeights s) /\
   calculateProgress s q <= 100)%Q.
Proof.
  intros Hp Hpq Hq.
  rewrite !calculateProgress_value. cbv zeta.
  destruct (weights_in_scale s) as [Hs [Hw Hsum]].
  set (start := fst (stageWeights s)) in *. set (weight := snd (stageWeights s)) in *.
  assert (Ep : (weight * p / 100 == weight * p * (1 # 100))%Q) by field.
  assert (Eq : (weight * q / 100 == weight * q * (1 # 100))%Q) by field.
  rewrite Ep, Eq.
  assert (0 <= weight * p)%Q by nra.
  assert (weight * p <= weight * q)%Q by nra.
  assert (weight * q <= weight * 100)%Q by nra.
  destruct (Qle_bool 100 (start + weight * p * (1 # 100))) eqn:E1;
  destruct (Qle_bool 100 (start + weight * q * (1 # 100))) eqn:E2;
  try (apply Qle_bool_iff in E1); try (apply Qle_bool_iff in E2);
  repeat split; try lra.
Qed.

Lemma progress_stays_within_the_stage_witness :
  (fst (stageWeights analyzing) <= calculateProgress analyzing 50 /\
   calculateProgress analyzing 50 <= calculateProgress analyzing 100 /\
   calculateProgress analyzing 100
     <= fst (stageWeights analyzing) + snd (stageWeights analyzing) /\
   calculateProgress analyzing 100 <= 100)%Q.
Proof.
  apply (progress_stays_within_the_stage analyzing 50 100); lra.
Defined.

End StreamingFacts.

(* ================================================================== *)
(** * More about the analyzer pool *)
(* ================================================================== *)

Module PoolFacts.

Import Types Coordinator.



Section Resolved.

Variable rt : Runtime.
Variable input : Input.t.
Variable outcomeOf : Agent -> Outcome.

Hypothesis streaming : Input.progressStream input = true.


End Resolved.



End PoolFacts.

(* ================================================================== *)
(** * More about the chunker *)
(* ================================================================== *)

Module CodeGraphFacts.

Import CodeGraph.

(** ** The in-memory project *)











(** ** The chunks *)

Section WithTsMorph.

Variable descendants : string -> string -> list Node.
Variable regexTest : Js.RegexLiteral -> string -> bool.

Lemma chunkSourceFile_grows (chunks : list CodeChunk) (sf : SourceFile) :
  exists added,
    chunkSourceFile descendants regexTest chunks sf = chunks ++ added /\
    (forall c, In c added -> file c = fst sf) /\
    (exists c, In c (chunkSourceFile descendants regexTest chunks sf) /\ file c = fst sf).
Proof.
  unfold chunkSourceFile. fold (ownChunks descendants regexTest sf).
  destruct (length (filter (fun c => String.eqb (file c) (fst sf))
                      (chunks ++ ownChunks descendants regexTest sf)) =? 0) eqn:E.
  - exists (ownChunks descendants regexTest sf ++ [wholeFileChunk sf]).
    split; [rewrite app_assoc; reflexivity | split].
    + intros c Hc. apply in_app_or in Hc. destruct Hc as [Hc | [<- | []]];
        [apply (ownChunks_file descendants regexTest sf c Hc) | reflexivity].
    + exists (wholeFileChunk sf). split; [|reflexivity].
      apply in_or_app. right. left. reflexivity.
  - exists (ownChunks descendants regexTest sf).
    split; [reflexivity | split].
    + intros c Hc. apply (ownChunks_file descendants regexTest sf c Hc).
    + apply Nat.eqb_neq in E.
      destruct (filter (fun c => String.eqb (file c) (fst sf))
                  (chunks ++ ownChunks descendants regexTest sf)) as [|c l] eqn:Ef;
        [exfalso; apply E; reflexivity|].
      assert (Hc : In c (filter (fun c => String.eqb (file c) (fst sf))
                           (chunks ++ ownChunks descendants regexTest sf)))
        by (rewrite Ef; left; reflexivity).
      apply filter_In in Hc. destruct Hc as [Hin Hfile].
      exists c. split; [exact Hin | apply String.eqb_eq, Hfile].
Qed.

Lemma chunks_fold (sfs : list SourceFile) (chunks : list CodeChunk) :
  exists added,
    fold_left (chunkSourceFile descendants regexTest) sfs chunks = chunks ++ added /\
    (forall c, In c added -> exists sf, In sf sfs /\ file c = fst sf) /\
    (forall sf, In sf sfs ->
       exists c, In c (fold_left (chunkSourceFile descendants regexTest) sfs chunks) /\
                 file c = fst sf).
Proof.
  revert chunks. induction sfs as [|sf sfs IH]; intros chunks.
  - exists []. simpl. rewrite app_nil_r. repeat split; [intros c [] | intros sf []].
  - cbn [fold_left].
    destruct (chunkSourceFile_grows chunks sf) as [a1 [E1 [Hfile1 [c1 [Hin1 Hc1]]]]].
    destruct (IH (chunkSourceFile descendants regexTest chunks sf))
      as [a2 [E2 [Hfile2 Hall2]]].
    exists (a1 ++ a2). split; [|split].
    + rewrite E2, E1, app_assoc. reflexivity.
    + intros c Hc. apply in_app_or in Hc. destruct Hc as [Hc | Hc].
      * exists sf. split; [left; reflexivity | apply Hfile1, Hc].
      * destruct (Hfile2 c Hc) as [sf' [Hsf' Hf]]. exists sf'. split; [right|]; assumption.
    + intros sf' [<- | Hsf'].
      * exists c1. split; [|exact Hc1]. rewrite E2. apply in_or_app. left. exact Hin1.
      * apply Hall2, Hsf'.
Qed.

Lemma chunks_of_distinct_files (sfs : list SourceFile) (chunks : list CodeChunk) :
  NoDup (map fst sfs) ->
  (forall c sf, In c chunks -> In sf sfs -> file c <> fst sf) ->
  fold_left (chunkSourceFile descendants regexTest) sfs chunks =
  chunks ++ flat_map (fileChunks descendants regexTest) sfs.
Proof.
  revert chunks. induction sfs as [|sf sfs IH]; intros chunks Hnd Hother.
  - simpl. rewrite app_nil_r. reflexivity.
  - cbn [fold_left flat_map]. simpl in Hnd. inversion Hnd as [|? ? Hsf Hnd']; subst.
    rewrite (chunkSourceFile_shape descendants regexTest chunks sf)
      by (intros c Hc; apply (Hother c sf Hc); left; reflexivity).
    fold (fileChunks descendants regexTest sf).
    rewrite IH; [rewrite <- app_assoc; reflexivity | exact Hnd' |].
    intros c sf' Hc Hsf' E. apply in_app_or in Hc. destruct Hc as [Hc | Hc].
    + apply (Hother c sf' Hc); [right; exact Hsf' | exact E].
    + apply (fileChunks_file descendants regexTest) in Hc.
      apply Hsf. rewrite <- Hc, E. apply in_map, Hsf'.
Qed.

End WithTsMorph.

(** X20.  Every source file of the project is represented: the chunker
    returns at least one chunk for each, and every chunk it returns
    belongs to one of them. *)
Theorem every_source_file_has_a_chunk
  (descendants : string -> string -> list Node)
  (getSourceFiles : list SourceFile -> list SourceFile)
  (regexTest : Js.RegexLiteral -> string -> bool) (files : list RepoFile) :
  (forall sf, In sf (getSourceFiles (loadProject files)) ->
     exists c, In c (buildCodeGraph descendants getSourceFiles regexTest files) /\
               file c = fst sf) /\
  (forall c, In c (buildCodeGraph descendants getSourceFiles regexTest files) ->
     exists sf, In sf (getSourceFiles (loadProject files)) /\ file c = fst sf).
Proof.
  unfold buildCodeGraph.
  destruct (chunks_fold descendants regexTest (getSourceFiles (loadProject files)) [])
    as [added [Heq [Hfiles Hall]]].
  split; [exact Hall|].
  intros c Hc. rewrite Heq in Hc. apply Hfiles, Hc.
Qed.

(** X21.  When the source files listed have different paths, the result
    is the files' chunks one file after the other: for each file the
    chunks of its declarations, or the single whole-file chunk of kind
    code (lines 1 to the last) when it declares nothing the chunker
    keeps. *)
Theorem chunks_come_file_by_file
  (descendants : string -> string -> list Node)
  (getSourceFiles : list SourceFile -> list SourceFile)
  (regexTest : Js.RegexLiteral -> string -> bool) (files : list RepoFile) :
  NoDup (map fst (getSourceFiles (loadProject files))) ->
  buildCodeGraph descendants getSourceFiles regexTest files =
    flat_map (fileChunks descendants regexTest) (getSourceFiles (loadProject files)) /\
  forall sf, In sf (getSourceFiles (loadProject files)) ->
    ownChunks descendants regexTest sf = [] ->
    fileChunks descendants regexTest sf =
    [ mkCodeChunk
        (getBaseName (fst sf) ++ ":1-"
           ++ Js.natToString (lineAtPos (snd sf) (String.length (snd sf))))%string
        (fst sf) code None (snd sf) 1 (lineAtPos (snd sf) (String.length (snd sf))) ].
Proof.
  intros Hnd. split.
  - unfold buildCodeGraph.
    rewrite (chunks_of_distinct_files descendants regexTest _ [] Hnd);
      [reflexivity | intros c sf []].
  - intros sf _ Hown. unfold fileChunks. rewrite Hown. reflexivity.
Qed.

Lemma chunks_come_file_by_file_witness :
  buildCodeGraph (fun _ _ => []) (fun project => project) (fun _ _ => false)
                 [headerIndex; footerIndex] =
  flat_map (fileChunks (fun _ _ => []) (fun _ _ => false))
           (loadProject [headerIndex; footerIndex]).
Proof.
  apply (chunks_come_file_by_file (fun _ _ => []) (fun project => project)
           (fun _ _ => false) [headerIndex; footerIndex]).
  vm_compute. repeat constructor; simpl; intuition discriminate.
Defined.

(** ** Ids and lines *)

Lemma lineBreaksBefore_mono (s : string) (pos pos' : nat) :
  pos <= pos' -> lineBreaksBefore pos s <= lineBreaksBefore pos' s.
Proof.
  revert pos pos'. induction s as [|c s IH]; intros pos pos' Hle.
  - destruct pos, pos'; simpl; lia.
  - destruct pos as [|p]; [simpl; lia|].
    destruct pos' as [|p']; [lia|].
    assert (Hp : p <= p') by lia. specialize (IH p p' Hp).
    cbn [lineBreaksBefore]. cbv zeta.
    destruct (Ascii.eqb c Js.LF); [lia|].
    destruct (Ascii.eqb c (ascii_of_nat 13)); [|exact IH].
    destruct s as [|d s']; [lia|].
    destruct (Ascii.eqb d Js.LF); lia.
Qed.

(** What every chunk satisfies. *)
Definition wellFormed (c : CodeChunk) : Prop :=
  id c = (getBaseName (file c) ++ ":" ++ Js.natToString (startLine c) ++ "-"
            ++ Js.natToString (endLine c))%string /\
  1 <= startLine c /\ startLine c <= endLine c.

Section WithTsMorph.

Variable descendants : string -> string -> list Node.
Variable regexTest : Js.RegexLiteral -> string -> bool.

Hypothesis spans : forall name text node,
  In node (descendants name text) -> getStart node <= getEnd node.

Lemma add_wellFormed (sf : SourceFile) (kind : ChunkKind) (name : option string)
  (start end_ : nat) :
  start <= end_ -> wellFormed (add sf kind name start end_).
Proof.
  intros Hle. unfold wellFormed, add. cbn [id file startLine endLine].
  split; [reflexivity|]. unfold lineAtPos.
  pose proof (lineBreaksBefore_mono (snd sf) start end_ Hle). lia.
Qed.

Lemma ownChunks_wellFormed (sf : SourceFile) (c : CodeChunk) :
  In c (ownChunks descendants regexTest sf) -> wellFormed c.
Proof.
  unfold ownChunks. rewrite in_flat_map. intros [node [Hnode Hc]].
  pose proof (spans _ _ node Hnode) as Hle.
  unfold visit in Hc. destruct (getKind node).
  - destruct Hc as [<- | []]. apply add_wellFormed, Hle.
  - destruct Hc as [<- | []]. apply add_wellFormed, Hle.
  - destruct (_ && _); [|destruct Hc].
    destruct Hc as [<- | []]. apply add_wellFormed, Hle.
  - destruct Hc.
Qed.

Lemma chunkSourceFile_wellFormed (chunks : list CodeChunk) (sf : SourceFile) :
  (forall c, In c chunks -> wellFormed c) ->
  forall c, In c (chunkSourceFile descendants regexTest chunks sf) -> wellFormed c.
Proof.
  intros Hall c. unfold chunkSourceFile. fold (ownChunks descendants regexTest sf).
  assert (Hboth : forall d, In d (chunks ++ ownChunks descendants regexTest sf) ->
                            wellFormed d).
  { intros d Hd. apply in_app_or in Hd.
    destruct Hd as [Hd | Hd]; [apply Hall, Hd | apply (ownChunks_wellFormed sf d Hd)]. }
  destruct (_ =? 0); [|apply Hboth].
  intros Hc. apply in_app_or in Hc. destruct Hc as [Hc | [<- | []]]; [apply Hboth, Hc|].
  unfold wellFormed, lineAtPos. cbn [id file startLine endLine].
  split; [reflexivity | lia].
Qed.

Lemma fold_wellFormed (sfs : list SourceFile) (chunks : list CodeChunk) :
  (forall c, In c chunks -> wellFormed c) ->
  forall c, In c (fold_left (chunkSourceFile descendants regexTest) sfs chunks) ->
            wellFormed c.
Proof.
  revert chunks. induction sfs as [|sf sfs IH]; intros chunks Hall; [exact Hall|].
  cbn [fold_left]. apply IH. apply chunkSourceFile_wellFormed, Hall.
Qed.

End WithTsMorph.

(** X22.  Every chunk's id spells the base name of its file and its line
    span ([name:start-end]); lines count from one, and a chunk never ends
    before it starts, given that no syntax node does. *)
Theorem chunk_ids_spell_file_and_lines
  (descendants : string -> string -> list Node)
  (getSourceFiles : list SourceFile -> list SourceFile)
  (regexTest : Js.RegexLiteral -> string -> bool) (files : list RepoFile)
  (c : CodeChunk) :
  (forall name text node,
     In node (descendants name text) -> getStart node <= getEnd node) ->
  In c (buildCodeGraph descendants getSourceFiles regexTest files) ->
  id c = (getBaseName (file c) ++ ":" ++ Js.natToString (startLine c) ++ "-"
            ++ Js.natToString (endLine c))%string /\
  1 <= startLine c /\ startLine c <= endLine c.
Proof.
  intros Hspans Hc. unfold buildCodeGraph in Hc.
  apply (fold_wellFormed descendants regexTest Hspans _ [] (fun d (H : In d []) =>
           False_ind _ H) c Hc).
Qed.

Definition pageFile : RepoFile :=
  mkRepoFile "app/page.tsx"
    (Some "function Page() {
  return null
}")
    false.

(** The parser's answer for [pageFile]: one function declaration over the
    whole text. *)
Definition pageNodes (name text : string) : list Node :=
  [ mkNode FunctionDeclaration (Some "Page") 0 (String.length text) ].

Definition pageChunk : CodeChunk :=
  mkCodeChunk "page.tsx:1-3" "/app/page.tsx" function (Some "Page")
    "function Page() {
  return null
}" 1 3.

Lemma chunk_ids_spell_file_and_lines_witness :
  id pageChunk = (getBaseName (file pageChunk) ++ ":"
                    ++ Js.natToString (startLine pageChunk) ++ "-"
                    ++ Js.natToString (endLine pageChunk))%string /\
  1 <= startLine pageChunk /\ startLine pageChunk <= endLine pageChunk.
Proof.
  apply (chunk_ids_spell_file_and_lines pageNodes (fun project => project)
           (fun _ _ => false) [pageFile] pageChunk).
  - intros name text node [<- | []]. simpl. lia.
  - vm_compute. left. reflexivity.
Defined.

End CodeGraphFacts.

(* ================================================================== *)
(** * More about the cache *)
(* ================================================================== *)

Module CacheFacts.

Import Types Cache.
Import ITreeNotations.
Local Open Scope itree_scope.

(** What the store and the host answer to each request. *)
Definition Answers : Type := forall X : Type, cacheE X -> X.

(** The requests made to the store, without the type of their answer. *)
Inductive StoreCall :=
  | RepoFindUniqueCall (owner name : string)
  | ScanFindFirstCall (repoId commitSha provider model : string) (createdAtGte : Z)
  | RepoUpsertCall (owner name : string) (ref : option string)
  | ScanCreateCall (data : ScanData).

Definition callOf {X : Type} (e : storeE X) : StoreCall :=
  match e with
  | RepoFindUnique owner name => RepoFindUniqueCall owner name
  | ScanFindFirst repoId commitSha provider model gte =>
      ScanFindFirstCall repoId commitSha provider model gte
  | RepoUpsert owner name ref => RepoUpsertCall owner name ref
  | ScanCreate data => ScanCreateCall data
  end.

Definition storeCalls {X : Type} (e : cacheE X) : list StoreCall :=
  match e with
  | inl1 s => [callOf s]
  | inr1 _ => []
  end.

(** Running a program against the answers, for at most [fuel] steps: the
    value it returns and the requests it made to the store, in order. *)
Fixpoint run {R : Type} (fuel : nat) (answer : Answers) (t : itree cacheE R)
  : option (R * list StoreCall) :=
  match fuel with
  | 0 => None
  | S fuel' =>
      match observe t with
      | RetF r => Some (r, [])
      | TauF t' => run fuel' answer t'
      | VisF e k =>
          match run fuel' answer (k (answer _ e)) with
          | Some (r, calls) => Some (r, storeCalls e ++ calls)
          | None => None
          end
      end
  end.

Definition isWrite (c : StoreCall) : bool :=
  match c with
  | RepoUpsertCall _ _ _ | ScanCreateCall _ => true
  | _ => false
  end.

Definition maxAgeOf (options : CacheOptions) : Z :=
  match maxAge options with Some n => n | None => 604800000%Z end.

Section Running.

Variable answer : Answers.

Lemma run_ret {R : Type} (fuel : nat) (r : R) :
  run (S fuel) answer (Ret r) = Some (r, []).
Proof. reflexivity. Qed.

Lemma run_bind_ret {X R : Type} (fuel : nat) (x : X) (k : X -> itree cacheE R) :
  run fuel answer (ITree.bind (Ret x) k) = run fuel answer (k x).
Proof. destruct fuel; reflexivity. Qed.

Lemma run_store {X R : Type} (fuel : nat) (e : storeE X) (k : X -> itree cacheE R) :
  run (S fuel) answer (ITree.bind (trigger e) k) =
  match run fuel answer (k (answer _ (inl1 e))) with
  | Some (r, calls) => Some (r, callOf e :: calls)
  | None => None
  end.
Proof. destruct fuel; reflexivity. Qed.

Lemma run_host {X R : Type} (fuel : nat) (e : hostE X) (k : X -> itree cacheE R) :
  run (S fuel) answer (ITree.bind (trigger e) k) =
  run fuel answer (k (answer _ (inr1 e))).
Proof.
  destruct fuel; [reflexivity|].
  change (run (S (S fuel)) answer (ITree.bind (trigger e) k))
    with (match run (S fuel) answer (k (answer _ (inr1 e))) with
          | Some (r, calls) => Some (r, [] ++ calls)
          | None => None
          end).
  destruct (run (S fuel) answer (k (answer X (inr1 e)))) as [[r calls]|]; reflexivity.
Qed.

Lemma run_host_last {X : Type} (fuel : nat) (e : hostE X) :
  run (S (S fuel)) answer (trigger e : itree cacheE X) = Some (answer _ (inr1 e), []).
Proof. reflexivity. Qed.

End Running.

Ltac ends_with_null :=
  eexists; eexists;
  split; [reflexivity
         | split; [simpl; lia
                  | split; [reflexivity
                           | split; [discriminate
                                    | first [discriminate | intros; reflexivity]]]]].

(** X23.  Whatever the store and the clock answer, [getCachedScan] comes
    back with a value (an error of the store is swallowed and gives
    null), asks the store at most twice and never writes to it; and a
    result it returns is the one rebuilt from the scan that the store
    found for this repository, revision, provider and model, not older
    than [maxAge] (seven days by default). *)
Theorem cache_lookup_only_reads (answer : Answers) (owner repo : string)
  (commitSha : option string) (provider model : string) (options : CacheOptions) :
  exists r calls,
    run 6 answer (getCachedScan owner repo commitSha provider model options)
      = Some (r, calls) /\
    length calls <= 2 /\
    forallb (fun c => negb (isWrite c)) calls = true /\
    (forall result, r = Some result ->
       exists sha repoRecord scan,
         commitSha = Some sha /\ sha <> EmptyString /\
         forceRefresh options <> Some true /\
         answer _ (inl1 (RepoFindUnique owner repo)) = inr (Some repoRecord) /\
         answer _ (inl1 (ScanFindFirst (repoId repoRecord) sha provider model
                           (answer _ (inr1 DateNow) - maxAgeOf options)%Z))
           = inr (Some scan) /\
         result = resultOfScan scan) /\
    (forall err, answer _ (inl1 (RepoFindUnique owner repo)) = inl err -> r = None).
Proof.
  unfold getCachedScan.
  destruct commitSha as [[|c sha]|]; cbn [missing Js.truthy orb];
    [ends_with_null | | ends_with_null].
  destruct (forceRefresh options) as [[|]|]; cbn [orb]; [ends_with_null | |];
    rewrite run_store;
    (destruct (answer _ (inl1 (RepoFindUnique owner repo)))
       as [err | [repoRecord|]] eqn:Hrepo;
     [ rewrite run_host, run_ret; ends_with_null
     | cbv zeta; rewrite run_host, run_store; fold (maxAgeOf options);
       destruct (answer _ (inl1 (ScanFindFirst (repoId repoRecord) (String c sha)
                                   provider model
                                   (answer _ (inr1 DateNow) - maxAgeOf options)%Z)))
         as [err | [scan|]] eqn:Hscan;
       [ rewrite run_host, run_ret; ends_with_null
       | rewrite !run_host, run_ret; eexists; eexists;
         split; [reflexivity
                | split; [simpl; lia
                         | split; [reflexivity | split; [|discriminate]]]];
         intros result [= <-]; exists (String c sha), repoRecord, scan;
         repeat split; first [reflexivity | assumption | discriminate]
       | rewrite run_ret; ends_with_null ]
     | rewrite run_ret; ends_with_null ]).
Qed.

Definition savedData (result : ScanResult) (sha : string) (repoRecord : RepoRecord)
  : ScanData :=
  mkScanData (repoId repoRecord) sha (startedAt result) (finishedAt result)
             (stats result) (provider result) (model result)
             (map dataOfIssue (issues result)).

(** X24.  Saving never fails and never reads: whatever the store answers,
    [cacheScanResult] returns; without a revision it does not touch the
    store, otherwise it upserts the repository and, only when that
    succeeded, creates one scan for the revision with one row per issue. *)
Theorem cache_save_never_fails (answer : Answers) (result : ScanResult)
  (commitSha : option string) :
  exists calls,
    run 4 answer (cacheScanResult result commitSha) = Some (tt, calls) /\
    forallb isWrite calls = true /\
    match Js.truthy commitSha with
    | None => calls = []
    | Some sha =>
        let upsert := RepoUpsertCall (owner (repoOf result)) (repo (repoOf result))
                                     (ref (repoOf result)) in
        match answer _ (inl1 (RepoUpsert (owner (repoOf result)) (repo (repoOf result))
                                (ref (repoOf result)))) with
        | inl _ => calls = [upsert]
        | inr repoRecord =>
            calls = [upsert; ScanCreateCall (savedData result sha repoRecord)] /\
            length (dataIssues (savedData result sha repoRecord))
              = length (issues result)
        end
    end.
Proof.
  unfold cacheScanResult.
  destruct (Js.truthy commitSha) as [sha|].
  - rewrite run_store.
    destruct (answer _ (inl1 (RepoUpsert (owner (repoOf result)) (repo (repoOf result))
                                (ref (repoOf result))))) as [err | repoRecord].
    + rewrite run_host_last. destruct (answer unit _).
      eexists. split; [reflexivity | split; reflexivity].
    + rewrite run_store. fold (savedData result sha repoRecord).
      destruct (answer _ (inl1 (ScanCreate (savedData result sha repoRecord))));
        rewrite run_host_last; destruct (answer unit _);
        eexists; (split; [reflexivity | split; [reflexivity|]]);
        (split; [reflexivity | apply length_map]).
  - rewrite run_host, run_ret. eexists. split; [reflexivity | split; reflexivity].
Qed.

(** X25.  A forced refresh and an empty revision behave like a missing
    one: the lookup returns null without a single request. *)
Theorem refresh_or_empty_revision_skips_lookup (answer : Answers) (owner repo : string)
  (commitSha : option string) (provider model : string) (options : CacheOptions) :
  commitSha = Some EmptyString \/ forceRefresh options = Some true ->
  getCachedScan owner repo commitSha provider model options = Ret None /\
  ~ touchesStore (getCachedScan owner repo commitSha provider model options) /\
  run 1 answer (getCachedScan owner repo commitSha provider model options)
    = Some (None, []).
Proof.
  intros H.
  assert (E : getCachedScan owner repo commitSha provider model options = Ret None).
  { unfold getCachedScan. destruct H as [-> | ->]; [reflexivity|].
    rewrite orb_true_r. reflexivity. }
  rewrite E. split; [reflexivity | split; [apply ret_leaves_store | reflexivity]].
Qed.

(** A store without rows that refuses to write, and a clock at zero. *)
Definition emptyStore : Answers :=
  fun X e =>
    match e with
    | inl1 s =>
        match s in storeE T return T with
        | RepoFindUnique _ _ => inr None
        | ScanFindFirst _ _ _ _ _ => inr None
        | RepoUpsert _ _ _ => inl "read-only"
        | ScanCreate _ => inl "read-only"
        end
    | inr1 h =>
        match h in hostE T return T with
        | DateNow => 0%Z
        | ConsoleLog _ => tt
        | ConsoleError _ _ => tt
        end
    end.

Lemma refresh_or_empty_revision_skips_lookup_witness :
  getCachedScan "acme" "shop" (Some "4f2a9c1") "vercel" "kimi"
                (mkCacheOptions None (Some true)) = Ret None /\
  ~ touchesStore (getCachedScan "acme" "shop" (Some "4f2a9c1") "vercel" "kimi"
                                (mkCacheOptions None (Some true))) /\
  run 1 emptyStore
        (getCachedScan "acme" "shop" (Some "4f2a9c1") "vercel" "kimi"
                       (mkCacheOptions None (Some true)))
    = Some (None, []).
Proof.
  apply (refresh_or_empty_revision_skips_lookup emptyStore "acme" "shop"
           (Some "4f2a9c1") "vercel" "kimi" (mkCacheOptions None (Some true))).
  right. reflexivity.
Defined.

End CacheFacts.

(* ================================================================== *)
(** * More about the scores *)
(* ================================================================== *)

Module ScoringFacts.

Import Heuristics Sampling.

Definition points (rules : list (bool * nat * string)) : nat :=
  list_sum (map (fun r => snd (fst r)) rules).

Lemma fired_within_points (rules : list (bool * nat * string)) :
  list_sum (map fst (fired rules)) <= points rules.
Proof.
  unfold fired, points. induction rules as [|[[b n] tag] rules IH]; simpl; [lia|].
  destruct b; simpl; lia.
Qed.

Lemma fired_nothing (rules : list (bool * nat * string)) :
  (forall r, In r rules -> fst (fst r) = true -> 0 < snd (fst r)) ->
  list_sum (map fst (fired rules)) = 0 -> fired rules = [].
Proof.
  unfold fired. induction rules as [|[[b n] tag] rules IH]; intros Hpos Hsum;
    [reflexivity|].
  simpl in *. destruct b; simpl in *.
  - pose proof (Hpos (true, n, tag) (or_introl eq_refl) eq_refl). simpl in *. lia.
  - apply IH; [|exact Hsum]. intros r Hr. apply Hpos. right. exact Hr.
Qed.

Definition startsWithout (c : ascii) (s : string) : Prop :=
  match s with
  | EmptyString => False
  | String d _ => d <> c
  end.

Lemma join_starts (c : ascii) (tags : list string) :
  tags <> [] -> (forall t, In t tags -> startsWithout c t) ->
  startsWithout c (Js.join "," tags).
Proof.
  destruct tags as [|t tags]; [congruence|]. intros _ Hall.
  pose proof (Hall t (or_introl eq_refl)) as Ht.
  unfold Js.join. simpl. destruct tags; [exact Ht|].
  destruct t; [destruct Ht | exact Ht].
Qed.

Section WithMicromatch.

Variable isMatch : string -> list string -> bool -> bool.

Lemma scoringRules_points (flagged : list string) (f : RepoFile) (buf : Buffer) :
  points (scoringRules isMatch flagged f buf) <= 72.
Proof.
  unfold points, scoringRules. cbv zeta. cbn [map fst snd].
  pose proof (Nat.le_min_l 5 (String.length buf / 10240)) as Hbonus.
  set (bonus := Nat.min 5 (String.length buf / 10240)) in *. clearbody bonus.
  unfold list_sum. cbn [fold_right]. lia.
Qed.

Lemma scoringRules_positive (flagged : list string) (f : RepoFile) (buf : Buffer)
  (r : bool * nat * string) :
  In r (scoringRules isMatch flagged f buf) -> fst (fst r) = true -> 0 < snd (fst r).
Proof.
  unfold scoringRules. cbv zeta. intros Hr Hfire.
  repeat (destruct Hr as [<- | Hr]; [simpl in *; try lia|]); [|destruct Hr].
  apply andb_true_iff in Hfire. destruct Hfire as [_ Hbonus].
  apply Nat.ltb_lt in Hbonus. exact Hbonus.
Qed.

Lemma scoringRules_tags (flagged : list string) (f : RepoFile) (buf : Buffer)
  (t : string) :
  In t (map snd (fired (scoringRules isMatch flagged f buf))) -> startsWithout "s" t.
Proof.
  intros Ht. apply in_map_iff in Ht. destruct Ht as [[n tag] [<- Hin]].
  unfold fired in Hin. apply in_map_iff in Hin. destruct Hin as [r [[= <- <-] Hr]].
  apply filter_In in Hr. destruct Hr as [Hr _].
  unfold scoringRules in Hr. cbv zeta in Hr.
  repeat (destruct Hr as [<- | Hr]; [simpl; discriminate|]). destruct Hr.
Qed.

End WithMicromatch.

(** X26.  A file scores at most 72 points; it scores nothing exactly when
    its reason is [standard]; and a file that a heuristic hit names
    scores at least 10. *)
Theorem scores_are_bounded
  (isMatch : string -> list string -> bool -> bool)
  (flagged : list string) (f : RepoFile) (e : FileWithPriority) :
  scoreFile isMatch flagged f = Some e ->
  priority e <= 72 /\
  (priority e = 0 <-> reason e = "standard") /\
  (existsb (String.eqb (path f)) flagged = true -> 10 <= priority e).
Proof.
  unfold scoreFile. destruct (isBinary f); [discriminate|].
  destruct (content f) as [buf|]; [|discriminate].
  cbv zeta. intros [= <-]. cbn [priority reason].
  set (rules := scoringRules isMatch flagged f buf).
  split; [|split].
  - pose proof (fired_within_points rules).
    pose proof (scoringRules_points isMatch flagged f buf). fold rules in H0. lia.
  - split.
    + intros Hzero.
      rewrite (fired_nothing rules (scoringRules_positive isMatch flagged f buf) Hzero).
      reflexivity.
    + intros Hstd. destruct (fired rules) as [|hit hits] eqn:Efired; [reflexivity|].
      exfalso.
      assert (Hstart : startsWithout "s" (Js.join "," (map snd (hit :: hits)))).
      { apply join_starts; [discriminate|]. intros t Ht. rewrite <- Efired in Ht.
        apply (scoringRules_tags isMatch flagged f buf t Ht). }
      destruct (Js.join "," (map snd (hit :: hits))) as [|c rest] eqn:Ejoin;
        [destruct Hstart|].
      change (String.eqb (String c rest) "") with false in Hstd.
      simpl in Hstart. injection Hstd as Hc _. contradiction.
  - intros Hflag. subst rules. unfold scoringRules, fired. cbv zeta.
    cbn [filter fst snd]. rewrite Hflag. cbn [map fst snd].
    unfold list_sum. cbn [fold_right]. apply Nat.le_add_r.
Qed.

Lemma scores_are_bounded_witness :
  priority (mkFileWithPriority fileA 10 "heuristic-hit") <= 72 /\
  (priority (mkFileWithPriority fileA 10 "heuristic-hit") = 0 <->
   reason (mkFileWithPriority fileA 10 "heuristic-hit") = "standard") /\
  (existsb (String.eqb (path fileA)) ["a.ts"] = true ->
   10 <= priority (mkFileWithPriority fileA 10 "heuristic-hit")).
Proof.
  apply (scores_are_bounded globMatch ["a.ts"] fileA
           (mkFileWithPriority fileA 10 "heuristic-hit")).
  vm_compute. reflexivity.
Defined.

End ScoringFacts.

(* ================================================================== *)
(** * More about the recovery of fenced answers *)
(* ================================================================== *)

Module FenceFacts.

Import Coordinator.

Local Open Scope string_scope.














End FenceFacts.

(* ================================================================== *)
(** * lib/ai/tools/github.ts: the snippet of an error body *)
(* ================================================================== *)

Module Github.

Local Open Scope string_scope.











End Github.

Module GithubFacts.

Import Github.


End GithubFacts.

(* ================================================================== *)
(** * From the planner's call to the report *)
(* ================================================================== *)

Module RunFacts.

Import Types Coordinator CoordinatorFacts.

Definition withMarkdown (text : string) (result : ScanResult) : ScanResult :=
  mkScanResult (repoOf result) (startedAt result) (finishedAt result) (stats result)
    (issues result) (embeddings result) (provider result) (model result)
    (openrouterProvider result) text (warnings result).

Definition warningsCount (result : ScanResult) : nat :=
  match warnings result with
  | Some (_ :: _) => 1
  | _ => 0
  end.

(** X29.  When a run returns a report, the planner has been called, and
    the report lists the issues the planner was given, in that order and
    changed at most in their codemods, followed by the warnings issue when
    there are warnings; the report names the requested provider (vercel
    when none was requested) with its default model, and its markdown is
    the report rendered from the result itself. *)
Theorem report_holds_what_the_planner_saw
  (rt : Runtime) (oracle : Oracle) (input : Input.t) (w : World) (result : ScanResult) :
  fst (runFullAudit rt oracle input w) = Returned result ->
  exists plannedIssues codemods evs,
    log (snd (runFullAudit rt oracle input w)) = log w ++ evs /\
    In (PlannerCalled plannedIssues) evs /\
    Forall2 (planned codemods) plannedIssues
            (firstn (length plannedIssues) (issues result)) /\
    length (issues result) = length plannedIssues + warningsCount result /\
    provider result = targetProvider input /\
    model result = Provider.getDefaultModelForProvider (defaults rt) (targetProvider input) /\
    markdown result =
      Report.buildMarkdownReport (toLocaleString rt) (withMarkdown "" result).
Proof.
  intros Hresult.
  destruct (runFullAudit_runs rt oracle input)
    as [r [evs [Hruns [analyzerEvents [rest [Hevs [_ Hcases]]]]]]].
  rewrite (Hruns w) in *. cbn [fst snd log] in *. subst r.
  destruct Hcases as [[_ [a [e [Habs _]]]] | [_ [_ [synthesizing [post [Hrest [_ [_ Hplan]]]]]]]];
    [discriminate Habs|].
  destruct (codemodAgentPlan oracle
              (issuesForPlanner rt oracle input (settledAll rt oracle input)))
    as [codemodsJson | err]; [|discriminate Hplan].
  injection Hplan as ->.
  set (settled := settledAll rt oracle input) in *.
  set (codemods := fst (normalizeAgentOutput (parseJson rt) "codemod" codemodsJson
                          (mergedWarnings (mergeFindings rt oracle settled)))).
  exists (issuesForPlanner rt oracle input settled), codemods, evs.
  pose proof (fold_planned codemods (issuesForPlanner rt oracle input settled)) as Hfold.
  pose proof (Forall2_length Hfold) as Hlen.
  assert (Hissues : issues (reportOf rt oracle input settled codemodsJson) =
                    fold_left applyCodemod codemods (issuesForPlanner rt oracle input settled)
                    ++ match finalWarnings rt oracle settled codemodsJson with
                       | [] => []
                       | warnings =>
                           [warningsIssue
                              (randomSuffix oracle (drawn (mergeFindings rt oracle settled)))
                              warnings]
                       end).
  { unfold reportOf. cbv zeta. cbn [issues]. unfold finalIssues. cbv zeta. fold codemods.
    destruct (finalWarnings rt oracle settled codemodsJson);
      [rewrite app_nil_r|]; reflexivity. }
  split; [reflexivity | split; [|split; [|split; [|split; [|split]]]]].
  - rewrite Hevs, Hrest. apply in_or_app. right. apply in_or_app. right.
    apply in_or_app. right. left. reflexivity.
  - rewrite Hissues, Hlen, firstn_app, Nat.sub_diag, firstn_all, firstn_O, app_nil_r.
    exact Hfold.
  - rewrite Hissues, length_app, <- Hlen. f_equal.
    unfold warningsCount, reportOf. cbv zeta. cbn [warnings].
    destruct (finalWarnings rt oracle settled codemodsJson); reflexivity.
  - reflexivity.
  - reflexivity.
  - reflexivity.
Qed.

Lemma report_holds_what_the_planner_saw_witness :
  exists plannedIssues codemods evs,
    log (snd (runFullAudit sampleRuntime sampleOracle sampleInput idle)) = log idle ++ evs /\
    In (PlannerCalled plannedIssues) evs /\
    Forall2 (planned codemods) plannedIssues
            (firstn (length plannedIssues)
               (issues (reportOf sampleRuntime sampleOracle sampleInput
                          (settledAll sampleRuntime sampleOracle sampleInput) (JArray [])))) /\
    length (issues (reportOf sampleRuntime sampleOracle sampleInput
                      (settledAll sampleRuntime sampleOracle sampleInput) (JArray [])))
      = length plannedIssues
        + warningsCount (reportOf sampleRuntime sampleOracle sampleInput
                           (settledAll sampleRuntime sampleOracle sampleInput) (JArray [])) /\
    provider (reportOf sampleRuntime sampleOracle sampleInput
                (settledAll sampleRuntime sampleOracle sampleInput) (JArray []))
      = targetProvider sampleInput /\
    model (reportOf sampleRuntime sampleOracle sampleInput
             (settledAll sampleRuntime sampleOracle sampleInput) (JArray []))
      = Provider.getDefaultModelForProvider (defaults sampleRuntime)
          (targetProvider sampleInput) /\
    markdown (reportOf sampleRuntime sampleOracle sampleInput
                (settledAll sampleRuntime sampleOracle sampleInput) (JArray []))
      = Report.buildMarkdownReport (toLocaleString sampleRuntime)
          (withMarkdown ""
             (reportOf sampleRuntime sampleOracle sampleInput
                (settledAll sampleRuntime sampleOracle sampleInput) (JArray []))).
Proof.
  apply (report_holds_what_the_planner_saw sampleRuntime sampleOracle sampleInput idle
           (reportOf sampleRuntime sampleOracle sampleInput
              (settledAll sampleRuntime sampleOracle sampleInput) (JArray []))).
  vm_compute. reflexivity.
Defined.

End RunFacts.
